(** * The plugin rack of SLURM (src/common/plugrack.c, tag slurm-0-2-5-1)

    A shallow embedding of the plugin rack: the paranoia checks that run
    before a plugin file is touched, the discovery operations that fill the
    rack, and the reference-counted life cycle of the plugins in it.

    The rack talks to three things outside plugrack.c: the file system
    (stat, opendir/readdir), the low-level plugin loader of plugin.c
    (plugin_peek, plugin_load_from_file, plugin_unload) and the List
    container.  The first two are an [environment] the operations read, and
    every call made to them is written to a trace of [event]s, so that the
    order of the calls can be stated.  The List container is a Rocq list.

    Pointers handed to the operations (the rack, path names, type names) are
    taken to be non-NULL; the NULL guards at the head of every public
    function return before anything else happens and are not modelled. *)

From Stdlib Require Import ZArith List String Ascii Bool Lia.
Import ListNotations.
Open Scope string_scope.
Open Scope list_scope.
Open Scope Z_scope.

(** ** C integers and strings *)

Definition INT_MAX : Z := 2147483647.
Definition INT_MIN : Z := -2147483648.

(** Modelled from the spec: slurm_errno.h is not part of the sources at
    hand.  Operations answer with one of two distinct status codes. *)
Definition SLURM_SUCCESS : Z := 0.
(** Modelled from the spec: the status of an operation that failed. *)
Definition SLURM_ERROR : Z := -1.

(** The character at the head of a C string; the terminating NUL when the
    string is exhausted. *)
Definition head_char (s : string) : Z :=
  match s with
  | EmptyString => 0
  | String a _ => Z.of_N (N_of_ascii a)
  end.

Definition tail_str (s : string) : string :=
  match s with
  | EmptyString => EmptyString
  | String _ s' => s'
  end.

(** strncmp(3): compares at most [n] characters and stops at the first
    difference or at a NUL. *)
Fixpoint strncmp (s1 s2 : string) (n : nat) : Z :=
  match n with
  | O => 0
  | S n' =>
      if negb (head_char s1 =? head_char s2) then head_char s1 - head_char s2
      else if head_char s1 =? 0 then 0
      else strncmp (tail_str s1) (tail_str s2) n'
  end.

(** strcmp(3). *)
Fixpoint strcmp (s1 s2 : string) : Z :=
  match s1 with
  | EmptyString => 0 - head_char s2
  | String a s1' =>
      if negb (head_char s1 =? head_char s2) then head_char s1 - head_char s2
      else if head_char s1 =? 0 then 0
      else strcmp s1' (tail_str s2)
  end.

(** strrchr(3) for a character other than NUL: the offset of its last
    occurrence. *)
Fixpoint strrchr (s : string) (c : ascii) : option nat :=
  match s with
  | EmptyString => None
  | String a s' =>
      match strrchr s' c with
      | Some i => Some (S i)
      | None => if Ascii.eqb a c then Some O else None
      end
  end.

(** A Rocq string is the contents of a C string when it holds no NUL. *)
Fixpoint nul_free (s : string) : Prop :=
  match s with
  | EmptyString => True
  | String a s' => a <> zero /\ nul_free s'
  end.

(** ** System and loader interface *)

(** The two fields of struct stat the rack reads. *)
Record stat_t : Type := mk_stat {
  st_uid : Z;
  st_mode : Z
}.

(** <sys/stat.h> *)
Definition S_IWGRP : Z := 16.      (* 0020 *)
Definition S_IWOTH : Z := 2.       (* 0002 *)
Definition S_IFMT : Z := 61440.    (* 0170000 *)
Definition S_IFREG : Z := 32768.   (* 0100000 *)
Definition S_ISREG (mode : Z) : bool := Z.land mode S_IFMT =? S_IFREG.

(** Modelled from the spec: plugin.h is not part of the sources at hand.  A
    plugin handle is an opaque reference to a loaded module, compared with
    ==; here an address. *)
Definition plugin_handle_t : Type := Z.
(** Modelled from the spec: the explicit "not loaded" / "invalid handle"
    sentinel among the handles of plugin.h; here the null address. *)
Definition PLUGIN_INVALID_HANDLE : plugin_handle_t := 0.

(** Modelled from the spec: plugrack.h is not part of the sources at hand.
    The paranoia policy is a bit mask that selects among the four checks
    directory ownership, directory writability, file ownership and file
    writability; each has a bit of its own, and the empty mask enforces
    nothing. *)
Definition PLUGRACK_PARANOIA_NONE : Z := 0.
(** Modelled from the spec: the directory-ownership bit of plugrack.h. *)
Definition PLUGRACK_PARANOIA_DIR_OWN : Z := 1.
(** Modelled from the spec: the directory-writability bit of plugrack.h. *)
Definition PLUGRACK_PARANOIA_DIR_WRITABLE : Z := 2.
(** Modelled from the spec: the file-ownership bit of plugrack.h. *)
Definition PLUGRACK_PARANOIA_FILE_OWN : Z := 4.
(** Modelled from the spec: the file-writability bit of plugrack.h. *)
Definition PLUGRACK_PARANOIA_FILE_WRITABLE : Z := 8.

Definition PLUGRACK_UID_NOBODY : Z := 99.

(** What the outside world answers during one operation of the rack.
    [stat] is [None] when stat(2) fails; [plugin_peek] is [None] when the
    loader reports SLURM_ERROR, and otherwise the type string left in the
    caller's buffer of the given size; [plugin_load_from_file] is
    PLUGIN_INVALID_HANDLE when the load fails; [opendir] is [None] when the
    directory cannot be opened, and otherwise the names readdir(3) yields. *)
Record environment : Type := mk_env {
  stat : string -> option stat_t;
  plugin_peek : string -> nat -> option string;
  plugin_load_from_file : string -> plugin_handle_t;
  opendir : string -> option (list string)
}.

(** The calls that leave the rack. *)
Inductive event : Type :=
| EvStat (path : string)
| EvPeek (path : string)
| EvLoad (path : string)
| EvUnload (plug : plugin_handle_t)
| EvOpendir (dir : string).

(** ** Computations

    A computation either returns a value together with the calls it made,
    or does not return to its caller at all ([None]): a failed xassert
    aborts the process. *)
Definition M (A : Type) : Type := option (A * list event).

Definition ret {A : Type} (a : A) : M A := Some (a, []).

Definition bind {A B : Type} (m : M A) (f : A -> M B) : M B :=
  match m with
  | None => None
  | Some (a, t1) =>
      match f a with
      | None => None
      | Some (b, t2) => Some (b, t1 ++ t2)
      end
  end.

Definition emit (e : event) : M unit := Some (tt, [e]).

Definition undefined {A : Type} : M A := None.

Definition xassert (b : bool) : M unit := if b then ret tt else undefined.

Notation "x <- m ;; k" := (bind m (fun x => k))
  (at level 61, m at next level, right associativity).
Notation "m ;;; k" := (bind m (fun _ => k))
  (at level 61, right associativity).

(** The value of a computation that returned. *)
Definition value {A : Type} (m : M A) : option A := option_map fst m.

(** e++ and e-- on an int, as the compiled code does them: a count at
    INT_MAX wraps around to INT_MIN, and one at INT_MIN to INT_MAX. *)
Definition int_incr (x : Z) : M Z :=
  if x <? INT_MAX then ret (x + 1) else ret INT_MIN.
Definition int_decr (x : Z) : M Z :=
  if INT_MIN <? x then ret (x - 1) else ret INT_MAX.

(** ** The rack *)

Record plugrack_entry_t : Type := mk_entry {
  full_type : string;
  fq_path : string;
  plug : plugin_handle_t;
  refcount : Z
}.

Record plugrack : Type := mk_rack {
  entries : list plugrack_entry_t;
  major_type : option string;
  uid : Z;
  paranoia : Z
}.

Definition set_entries (rack : plugrack) (es : list plugrack_entry_t) : plugrack :=
  mk_rack es (major_type rack) (uid rack) (paranoia rack).

Definition set_plug (e : plugrack_entry_t) (p : plugin_handle_t) : plugrack_entry_t :=
  mk_entry (full_type e) (fq_path e) p (refcount e).

Definition set_refcount (e : plugrack_entry_t) (n : Z) : plugrack_entry_t :=
  mk_entry (full_type e) (fq_path e) (plug e) n.

Section Operations.

Variable env : environment.

Definition sys_stat (path : string) : M (option stat_t) :=
  emit (EvStat path) ;;; ret (stat env path).

Definition sys_opendir (dir : string) : M (option (list string)) :=
  emit (EvOpendir dir) ;;; ret (opendir env dir).

Definition do_plugin_peek (path : string) (len : nat) : M (option string) :=
  emit (EvPeek path) ;;; ret (plugin_peek env path len).

Definition do_plugin_load_from_file (path : string) : M plugin_handle_t :=
  emit (EvLoad path) ;;; ret (plugin_load_from_file env path).

Definition plugin_unload (p : plugin_handle_t) : M unit := emit (EvUnload p).

(** *** Paranoia checks *)

(** accept_path_paranoia: [check_own] and [check_write] are C truth values,
    the rack's paranoia masked by one flag. *)
Definition accept_path_paranoia (rack : plugrack) (path : string)
    (check_own check_write : Z) : M bool :=
  st <- sys_stat path ;;
  match st with
  | None => ret false
  | Some st =>
      if negb (check_own =? 0) && negb (st_uid st =? uid rack) then ret false
      else if negb (check_write =? 0)
              && (negb (Z.land (st_mode st) S_IWGRP =? 0)
                  || negb (Z.land (st_mode st) S_IWOTH =? 0))
      then ret false
      else ret true
  end.

(** The path after  if ( p != local ) *p = 0;  where [p] is the offset of
    the last delimiter: the string is cut there unless the delimiter is
    its first character. *)
Definition chop_last_element (local : string) (p : nat) : string :=
  match p with
  | O => local
  | S _ => substring 0 p local
  end.

Definition accept_paranoia (rack : plugrack) (path : string) : M bool :=
  if paranoia rack =? 0 then ret true
  else
    ok <- accept_path_paranoia rack path
            (Z.land (paranoia rack) PLUGRACK_PARANOIA_FILE_OWN)
            (Z.land (paranoia rack) PLUGRACK_PARANOIA_FILE_WRITABLE) ;;
    if negb ok then ret false
    else
      match strrchr path "/" with
      | None => ret false
      | Some p =>
          accept_path_paranoia rack (chop_last_element path p)
            (Z.land (paranoia rack) PLUGRACK_PARANOIA_DIR_OWN)
            (Z.land (paranoia rack) PLUGRACK_PARANOIA_DIR_WRITABLE)
      end.

(** *** Construction, destruction and policy *)

(** With xassert compiled in, the destructor aborts on an entry that is
    still referenced. *)
Definition plugrack_entry_destructor (victim : plugrack_entry_t) : M unit :=
  xassert (refcount victim =? 0) ;;;
  if negb (plug victim =? PLUGIN_INVALID_HANDLE) then plugin_unload (plug victim)
  else ret tt.

(** list_destroy of the List container: the destructor on every element. *)
Fixpoint list_destroy (es : list plugrack_entry_t) : M unit :=
  match es with
  | [] => ret tt
  | e :: rest => plugrack_entry_destructor e ;;; list_destroy rest
  end.

Definition plugrack_create : plugrack :=
  mk_rack [] None PLUGRACK_UID_NOBODY PLUGRACK_PARANOIA_NONE.

(** plugrack_destroy: the status, and the rack that is left ([None] once it
    has been freed). *)
Definition plugrack_destroy (rack : plugrack) : M (Z * option plugrack) :=
  if existsb (fun e => refcount e >? 0) (entries rack)
  then ret (SLURM_ERROR, Some rack)
  else list_destroy (entries rack) ;;; ret (SLURM_SUCCESS, None).

Definition plugrack_set_major_type (rack : plugrack) (type : string)
    : M (Z * plugrack) :=
  ret (SLURM_SUCCESS, mk_rack (entries rack) (Some type) (uid rack) (paranoia rack)).

(** [flags] is a uint32_t and the paranoia field a uint8_t. *)
Definition plugrack_set_paranoia (rack : plugrack) (flags : Z) (new_uid : Z)
    : M (Z * plugrack) :=
  ret (SLURM_SUCCESS,
       mk_rack (entries rack) (major_type rack)
               (if negb (flags =? 0) then new_uid else uid rack)
               (flags mod 256)).

(** *** Discovery *)

Definition type_len : nat := 64.

Definition plugrack_add_plugin_path (rack : plugrack) (type path : string)
    : M (Z * plugrack) :=
  ret (SLURM_SUCCESS,
       set_entries rack
         (entries rack ++ [mk_entry type path PLUGIN_INVALID_HANDLE 0])).

(** rack->major_type && strncmp( rack->major_type, plugin_type,
    strlen( rack->major_type ) ) != 0 *)
Definition major_type_mismatch (rack : plugrack) (plugin_type : string) : bool :=
  match major_type rack with
  | None => false
  | Some major => negb (strncmp major plugin_type (String.length major) =? 0)
  end.

Definition plugrack_add_plugin_file (rack : plugrack) (path : string)
    : M (Z * plugrack) :=
  ok <- accept_paranoia rack path ;;
  if negb ok then ret (SLURM_ERROR, rack)
  else
    peeked <- do_plugin_peek path type_len ;;
    match peeked with
    | None => ret (SLURM_ERROR, rack)
    | Some plugin_type =>
        if major_type_mismatch rack plugin_type then ret (SLURM_ERROR, rack)
        else plugrack_add_plugin_path rack plugin_type path
    end.

(** One turn of the readdir loop of plugrack_read_dir, for the directory
    entry [d_name]. *)
Definition read_dir_entry (rack : plugrack) (dir d_name : string) : M plugrack :=
  let path := (dir ++ "/" ++ d_name)%string in
  st <- sys_stat path ;;
  match st with
  | None => ret rack
  | Some st =>
      if negb (S_ISREG (st_mode st)) then ret rack
      else
        ok <- accept_path_paranoia rack dir
                (Z.land (paranoia rack) PLUGRACK_PARANOIA_FILE_OWN)
                (Z.land (paranoia rack) PLUGRACK_PARANOIA_FILE_WRITABLE) ;;
        if negb ok then ret rack
        else
          peeked <- do_plugin_peek path type_len ;;
          match peeked with
          | None => ret rack
          | Some plugin_type =>
              if major_type_mismatch rack plugin_type then ret rack
              else
                added <- plugrack_add_plugin_path rack plugin_type path ;;
                ret (snd added)
          end
  end.

Fixpoint read_dir_loop (rack : plugrack) (dir : string) (names : list string)
    : M plugrack :=
  match names with
  | [] => ret rack
  | d_name :: rest =>
      rack' <- read_dir_entry rack dir d_name ;;
      read_dir_loop rack' dir rest
  end.

Definition plugrack_read_dir (rack : plugrack) (dir : string) : M (Z * plugrack) :=
  ok <- accept_path_paranoia rack dir
          (Z.land (paranoia rack) PLUGRACK_PARANOIA_DIR_OWN)
          (Z.land (paranoia rack) PLUGRACK_PARANOIA_DIR_WRITABLE) ;;
  if negb ok then ret (SLURM_ERROR, rack)
  else
    dirp <- sys_opendir dir ;;
    match dirp with
    | None => ret (SLURM_ERROR, rack)
    | Some names =>
        rack' <- read_dir_loop rack dir names ;;
        ret (SLURM_SUCCESS, rack')
    end.

(** *** Life cycle *)

Fixpoint purge_idle_loop (es : list plugrack_entry_t) : M (list plugrack_entry_t) :=
  match es with
  | [] => ret []
  | e :: rest =>
      e' <- (if negb (plug e =? PLUGIN_INVALID_HANDLE) && (refcount e =? 0)
             then plugin_unload (plug e) ;;; ret (set_plug e PLUGIN_INVALID_HANDLE)
             else ret e) ;;
      rest' <- purge_idle_loop rest ;;
      ret (e' :: rest')
  end.

Definition plugrack_purge_idle (rack : plugrack) : M (Z * plugrack) :=
  es <- purge_idle_loop (entries rack) ;;
  ret (SLURM_SUCCESS, set_entries rack es).

(** The loop of plugrack_load_all: the handle the loader returns is cast to
    void, so no entry is written. *)
Fixpoint load_all_loop (es : list plugrack_entry_t) : M unit :=
  match es with
  | [] => ret tt
  | e :: rest =>
      (if plug e =? PLUGIN_INVALID_HANDLE
       then (_ <- do_plugin_load_from_file (fq_path e) ;; ret tt)
       else ret tt) ;;;
      load_all_loop rest
  end.

Definition plugrack_load_all (rack : plugrack) : M (Z * plugrack) :=
  load_all_loop (entries rack) ;;; ret (SLURM_SUCCESS, rack).

(** The loop of plugrack_use_by_type: the handle returned and the entries
    after the call. *)
Fixpoint use_by_type_loop (type : string) (es : list plugrack_entry_t)
    : M (plugin_handle_t * list plugrack_entry_t) :=
  match es with
  | [] => ret (PLUGIN_INVALID_HANDLE, [])
  | e :: rest =>
      if negb (strcmp type (full_type e) =? 0) then
        r <- use_by_type_loop type rest ;;
        ret (fst r, e :: snd r)
      else
        p <- (if plug e =? PLUGIN_INVALID_HANDLE
              then do_plugin_load_from_file (fq_path e)
              else ret (plug e)) ;;
        n <- (if p =? PLUGIN_INVALID_HANDLE
              then int_incr (refcount e)
              else ret (refcount e)) ;;
        ret (p, mk_entry (full_type e) (fq_path e) p n :: rest)
  end.

Definition plugrack_use_by_type (rack : plugrack) (type : string)
    : M (plugin_handle_t * plugrack) :=
  r <- use_by_type_loop type (entries rack) ;;
  ret (fst r, set_entries rack (snd r)).

(** The loop of plugrack_finished_with_plugin. *)
Fixpoint finished_with_plugin_loop (p : plugin_handle_t) (es : list plugrack_entry_t)
    : M (Z * list plugrack_entry_t) :=
  match es with
  | [] => ret (SLURM_ERROR, [])
  | e :: rest =>
      if plug e =? p then
        n <- int_decr (refcount e) ;;
        ret (SLURM_SUCCESS, set_refcount e (if n <? 0 then 0 else n) :: rest)
      else
        r <- finished_with_plugin_loop p rest ;;
        ret (fst r, e :: snd r)
  end.

Definition plugrack_finished_with_plugin (rack : plugrack) (p : plugin_handle_t)
    : M (Z * plugrack) :=
  r <- finished_with_plugin_loop p (entries rack) ;;
  ret (fst r, set_entries rack (snd r)).

End Operations.

(** ** Sequences of public operations *)

Inductive operation : Type :=
| OpSetMajorType (type : string)
| OpSetParanoia (flags new_uid : Z)
| OpAddPluginFile (path : string)
| OpReadDir (dir : string)
| OpPurgeIdle
| OpLoadAll
| OpUseByType (type : string)
| OpFinishedWithPlugin (p : plugin_handle_t)
| OpDestroy.

(** One public operation on a live rack, in the world [env]: the rack the
    caller holds afterwards, [None] once plugrack_destroy has freed it. *)
Definition perform (env : environment) (op : operation) (rack : plugrack)
    : M (option plugrack) :=
  match op with
  | OpSetMajorType type =>
      r <- plugrack_set_major_type rack type ;; ret (Some (snd r))
  | OpSetParanoia flags new_uid =>
      r <- plugrack_set_paranoia rack flags new_uid ;; ret (Some (snd r))
  | OpAddPluginFile path =>
      r <- plugrack_add_plugin_file env rack path ;; ret (Some (snd r))
  | OpReadDir dir =>
      r <- plugrack_read_dir env rack dir ;; ret (Some (snd r))
  | OpPurgeIdle =>
      r <- plugrack_purge_idle rack ;; ret (Some (snd r))
  | OpLoadAll =>
      r <- plugrack_load_all env rack ;; ret (Some (snd r))
  | OpUseByType type =>
      r <- plugrack_use_by_type env rack type ;; ret (Some (snd r))
  | OpFinishedWithPlugin p =>
      r <- plugrack_finished_with_plugin rack p ;; ret (Some (snd r))
  | OpDestroy =>
      r <- plugrack_destroy rack ;; ret (snd r)
  end.

(** The racks a client can hold: a fresh one, and whatever a public
    operation that returns leaves of one, the world being free to differ
    from one operation to the next. *)
Inductive reachable : plugrack -> Prop :=
| reachable_create : reachable plugrack_create
| reachable_perform (env : environment) (op : operation)
    (rack rack' : plugrack) (t : list event) :
    reachable rack ->
    perform env op rack = Some (Some rack', t) ->
    reachable rack'.

(** The request [op] is answered by an entry whose count stands at INT_MAX
    and whose handle is still the invalid one after the attempt to load
    it: the e->refcount++ that follows wraps around. *)
Definition overflows (env : environment) (op : operation) (rack : plugrack) : bool :=
  match op with
  | OpUseByType type =>
      match find (fun e => strcmp type (full_type e) =? 0) (entries rack) with
      | Some e =>
          (INT_MAX <=? refcount e)
          && ((if plug e =? PLUGIN_INVALID_HANDLE
               then plugin_load_from_file env (fq_path e) else plug e)
              =? PLUGIN_INVALID_HANDLE)
      | None => false
      end
  | _ => false
  end.

(** The racks a client can hold without a count ever having wrapped. *)
Inductive reachable_without_overflow : plugrack -> Prop :=
| no_overflow_create : reachable_without_overflow plugrack_create
| no_overflow_perform (env : environment) (op : operation)
    (rack rack' : plugrack) (t : list event) :
    reachable_without_overflow rack ->
    overflows env op rack = false ->
    perform env op rack = Some (Some rack', t) ->
    reachable_without_overflow rack'.

(** ** Reference definitions *)

(** An entry holds a live module. *)
Definition loaded (e : plugrack_entry_t) : Prop := plug e <> PLUGIN_INVALID_HANDLE.

(** Loaded and unreferenced: what plugrack_purge_idle looks for. *)
Definition is_idle (e : plugrack_entry_t) : bool :=
  negb (plug e =? PLUGIN_INVALID_HANDLE) && (refcount e =? 0).

Definition purge_entry (e : plugrack_entry_t) : plugrack_entry_t :=
  if is_idle e then set_plug e PLUGIN_INVALID_HANDLE else e.

(** The decision on one file-system node as the specification words it:
    both switches off accepts before the node is looked at. *)
Definition spec_node_decision (st : option stat_t) (authorized_uid : Z)
    (check_owner check_writable : bool) : bool :=
  if negb check_owner && negb check_writable then true
  else
    match st with
    | None => false
    | Some st =>
        if check_owner && negb (st_uid st =? authorized_uid) then false
        else if check_writable && (Z.testbit (st_mode st) 4 || Z.testbit (st_mode st) 1)
        then false
        else true
    end.

(** The decision with the failed stat taken first. *)
Definition node_decision (st : option stat_t) (authorized_uid : Z)
    (check_owner check_writable : bool) : bool :=
  match st with
  | None => false
  | Some st =>
      if check_owner && negb (st_uid st =? authorized_uid) then false
      else if check_writable && (Z.testbit (st_mode st) 4 || Z.testbit (st_mode st) 1)
      then false
      else true
  end.

(** A trace on which the file system is the only thing called. *)
Definition only_stats (t : list event) : Prop :=
  Forall (fun ev => exists path, ev = EvStat path) t.

(** A C truth value. *)
Definition truth (x : Z) : bool := negb (x =? 0).

(** The required major type admits a declared type. *)
Definition namespace_accepts (major : option string) (declared : string) : bool :=
  match major with
  | None => true
  | Some m => String.prefix m declared
  end.

(** ** Worlds and racks for the examples *)

Definition munge_path : string := "/usr/lib/slurm/auth_munge.so".

(** A world in which every file is a plugin of type auth/munge; loading
    gives the handle [h]. *)
Definition env_loader (h : plugin_handle_t) : environment :=
  mk_env (fun _ => None) (fun _ _ => Some "auth/munge") (fun _ => h) (fun _ => None).

Definition munge_entry (p : plugin_handle_t) (n : Z) : plugrack_entry_t :=
  mk_entry "auth/munge" munge_path p n.

Definition munge_rack (p : plugin_handle_t) (n : Z) : plugrack :=
  mk_rack [munge_entry p n] None PLUGRACK_UID_NOBODY PLUGRACK_PARANOIA_NONE.


(** An idle plugin, a plugin in use, and an entry that is not loaded. *)
Definition rack_idle : plugrack :=
  mk_rack [munge_entry 4096 0; munge_entry 8192 2;
           munge_entry PLUGIN_INVALID_HANDLE 0] None 99 0.

(** An idle plugin and an entry that is not loaded, both without users. *)
Definition rack_idle_unused : plugrack :=
  mk_rack [munge_entry 4096 0; munge_entry PLUGIN_INVALID_HANDLE 0] None 99 0.

(** A directory of the authorized user 500 that holds a regular file of
    user 501. *)
Definition env_scan : environment :=
  mk_env
    (fun path =>
       if (path =? "/opt/plugins")%string then Some (mk_stat 500 16877)
       else if (path =? "/opt/plugins/evil.so")%string then Some (mk_stat 501 33188)
       else None)
    (fun _ _ => Some "auth/evil")
    (fun _ => PLUGIN_INVALID_HANDLE)
    (fun dir => if (dir =? "/opt/plugins")%string then Some ["evil.so"] else None).

Definition rack_scan : plugrack :=
  mk_rack [] None 500 PLUGRACK_PARANOIA_FILE_OWN.

(** A world with two plugin files under /lib, owned by root. *)
Definition env_auth : environment :=
  mk_env
    (fun _ => Some (mk_stat 0 33188))
    (fun path _ =>
       if (path =? "/lib/authxyz.so")%string then Some "authxyz"
       else if (path =? "/lib/auth_foo.so")%string then Some "auth/foo"
       else Some "sched/backfill")
    (fun _ => PLUGIN_INVALID_HANDLE)
    (fun dir => if (dir =? "/lib")%string then Some ["authxyz.so"; "auth_foo.so"; "sched.so"] else None).

Definition rack_auth : plugrack :=
  mk_rack [] (Some "auth") PLUGRACK_UID_NOBODY PLUGRACK_PARANOIA_NONE.

(** ** Further code of plugrack.c *)

(** e->plug != PLUGIN_INVALID_HANDLE *)
Definition is_loaded (e : plugrack_entry_t) : bool :=
  negb (plug e =? PLUGIN_INVALID_HANDLE).

(** The modules a sweep over [es] hands to plugin_unload when it unloads
    every entry that satisfies [sel]. *)
Definition unloads (sel : plugrack_entry_t -> bool) (es : list plugrack_entry_t)
    : list event :=
  map (fun e => EvUnload (plug e)) (filter sel es).

(** plugrack_open_plugin (static, without a caller in plugrack.c): loads
    the file and checks the type the module declares against the rack's
    major type.  [plugin_get_type] is the loader's plugin_get_type. *)
Definition plugrack_open_plugin (env : environment)
    (plugin_get_type : plugin_handle_t -> string)
    (rack : plugrack) (path : string) : M plugin_handle_t :=
  p <- do_plugin_load_from_file env path ;;
  if p =? PLUGIN_INVALID_HANDLE then ret PLUGIN_INVALID_HANDLE
  else
    match major_type rack with
    | Some major =>
        if negb (strncmp major (plugin_get_type p) (String.length major) =? 0)
        then plugin_unload p ;;; ret PLUGIN_INVALID_HANDLE
        else ret p
    | None => ret p
    end.

(** The calls discovery may make: it looks at the file system and peeks at
    types, and leaves loading and unloading alone. *)
Definition discovery_event (ev : event) : Prop :=
  match ev with
  | EvStat _ | EvPeek _ | EvOpendir _ => True
  | EvLoad _ | EvUnload _ => False
  end.

(** The calls the registration of one file may make. *)
Definition stat_or_peek (ev : event) : Prop :=
  match ev with
  | EvStat _ | EvPeek _ => True
  | EvLoad _ | EvUnload _ | EvOpendir _ => False
  end.

(** An entry as discovery creates it. *)
Definition fresh_entry (e : plugrack_entry_t) : Prop :=
  plug e = PLUGIN_INVALID_HANDLE /\ refcount e = 0.

(** Two racks under the same policy. *)
Definition same_policy (r r' : plugrack) : Prop :=
  major_type r' = major_type r /\ uid r' = uid r /\ paranoia r' = paranoia r.

(** The file check as the readdir loop of plugrack_read_dir makes it: the
    file flags of the policy, on the node of the directory. *)
Definition scan_file_check (env : environment) (rack : plugrack) (dir : string) : bool :=
  node_decision (stat env dir) (uid rack)
    (truth (Z.land (paranoia rack) PLUGRACK_PARANOIA_FILE_OWN))
    (truth (Z.land (paranoia rack) PLUGRACK_PARANOIA_FILE_WRITABLE)).

(** The directory entry [d_name] of [dir] is a regular file that gets
    past the loop's check and the type filter with declared type [type]. *)
Definition scan_admits (env : environment) (rack : plugrack) (dir d_name type : string)
    : Prop :=
  (exists st, stat env (dir ++ "/" ++ d_name) = Some st /\ S_ISREG (st_mode st) = true)
  /\ scan_file_check env rack dir = true
  /\ plugin_peek env (dir ++ "/" ++ d_name) type_len = Some type
  /\ major_type_mismatch rack type = false.

(** What one turn of the readdir loop appends. *)
Definition scan_one (env : environment) (rack : plugrack) (dir d_name : string)
    : list plugrack_entry_t :=
  let path := (dir ++ "/" ++ d_name)%string in
  match stat env path with
  | None => []
  | Some st =>
      if S_ISREG (st_mode st) && scan_file_check env rack dir then
        match plugin_peek env path type_len with
        | None => []
        | Some type =>
            if major_type_mismatch rack type then []
            else [mk_entry type path PLUGIN_INVALID_HANDLE 0]
        end
      else []
  end.

(** ** The cli_filter driver (cli_filter.c)

    The driver keeps a chain of plugin contexts in file-level variables and
    runs the pre_submit and post_submit functions of the plugins in chain
    order.  The variables are a [cli_filter_state] passed through the
    functions.  The configuration, the generic plugin layer
    (plugin_context_create, plugin_context_destroy) and the plugins' own
    functions are a [cli_filter_env]; the functions a context was created
    with (the slot of the ops array filled by plugin_context_create) are
    looked up by the context.  The mutex and the timers are left out. *)

Definition plugin_context_t : Type := Z.

Inductive cf_event : Type :=
| CfGetPlugins
| CfCreate (plugin_type type : string)
| CfDestroy (c : plugin_context_t)
| CfPreSubmit (c : plugin_context_t)
| CfPostSubmit (c : plugin_context_t).

(** g_context holds the contexts created; the slot that receives NULL
    when a creation fails lies at index g_context_cnt, past everything a
    loop of the driver reads, and is not kept. *)
Record cli_filter_state : Type := mk_cf_state {
  g_context_cnt : Z;
  g_context : list plugin_context_t;
  clifilter_plugin_list : option string;
  init_run : bool
}.

(** The variables as the file initializes them. *)
Definition cli_filter_start : cli_filter_state :=
  mk_cf_state (-1) [] None false.

(** The tokens that successive calls of strtok_r(3) return for the buffer
    [s]: the maximal runs of characters other than [delim].  [tok] is the
    part of the current token read so far. *)
Fixpoint strtok_tokens (delim : ascii) (s tok : string) : list string :=
  match s with
  | EmptyString => if (tok =? "")%string then [] else [tok]
  | String c s' =>
      if Ascii.eqb c delim
      then (if (tok =? "")%string then strtok_tokens delim s' ""
            else tok :: strtok_tokens delim s' "")
      else strtok_tokens delim s' (tok ++ String c "")
  end.

(** The characters of [s] before the first [delim]. *)
Fixpoint until_delim (delim : ascii) (s : string) : string :=
  match s with
  | EmptyString => EmptyString
  | String c s' => if Ascii.eqb c delim then EmptyString else String c (until_delim delim s')
  end.

(** The buffer [s], read as a C string, once strtok_r has gone over it:
    strtok_r writes a NUL over the delimiter that ends a token, so what is
    left is the leading delimiters and the first token. *)
Fixpoint strtok_clobbered (delim : ascii) (s : string) : string :=
  match s with
  | EmptyString => EmptyString
  | String c s' =>
      if Ascii.eqb c delim then String c (strtok_clobbered delim s')
      else until_delim delim s
  end.

(** type += n *)
Definition skip_chars (n : nat) (s : string) : string :=
  substring n (String.length s - n) s.

(** The type a context is created for, from one name of the list. *)
Definition cli_filter_type_name (type : string) : string :=
  String.append "cli_filter/"
    (if strncmp type "cli_filter/" 11 =? 0 then skip_chars 11 type else type).

Section CliFilter.

(** What the plugins' functions work on: the option structure and the
    error message the caller passes. *)
Variable D : Type.

Record cli_filter_env : Type := mk_cf_env {
  slurm_get_cli_filter_plugins : option string;
  plugin_context_create : string -> string -> option plugin_context_t;
  plugin_context_destroy : plugin_context_t -> Z;
  ops_pre_submit : plugin_context_t -> Z -> D -> Z * D;
  ops_post_submit : plugin_context_t -> Z -> Z -> D -> Z * D
}.

Variable env : cli_filter_env.

(** The for loop of cli_filter_plugin_fini over the contexts, [rc] being
    the status so far. *)
Fixpoint fini_loop (ctxs : list plugin_context_t) (rc : Z) : Z * list cf_event :=
  match ctxs with
  | [] => (rc, [])
  | c :: rest =>
      let j := plugin_context_destroy env c in
      let r := fini_loop rest (if negb (j =? SLURM_SUCCESS) then j else rc) in
      (fst r, CfDestroy c :: snd r)
  end.

Definition cli_filter_plugin_fini (st : cli_filter_state)
    : Z * cli_filter_state * list cf_event :=
  if g_context_cnt st <? 0 then (SLURM_SUCCESS, st, [])
  else
    let r := fini_loop (firstn (Z.to_nat (g_context_cnt st)) (g_context st))
               SLURM_SUCCESS in
    (fst r, mk_cf_state (-1) [] None false, snd r).

(** The strtok_r loop of cli_filter_plugin_init over the names left, with
    the count and the contexts so far: the status, the count and the
    contexts at the end. *)
Fixpoint init_loop (names : list string) (cnt : Z) (ctxs : list plugin_context_t)
    : Z * Z * list plugin_context_t * list cf_event :=
  match names with
  | [] => (SLURM_SUCCESS, cnt, ctxs, [])
  | type :: rest =>
      let kept := firstn (Z.to_nat cnt) ctxs in
      match plugin_context_create env "cli_filter" (cli_filter_type_name type) with
      | None =>
          (SLURM_ERROR, cnt, kept, [CfCreate "cli_filter" (cli_filter_type_name type)])
      | Some c =>
          let '(rc, cnt', ctxs', t) := init_loop rest (cnt + 1) (kept ++ [c]) in
          (rc, cnt', ctxs', CfCreate "cli_filter" (cli_filter_type_name type) :: t)
      end
  end.

Definition cli_filter_plugin_init (st : cli_filter_state)
    : Z * cli_filter_state * list cf_event :=
  if init_run st && (g_context_cnt st >=? 0) then (SLURM_SUCCESS, st, [])
  else if g_context_cnt st >=? 0 then (SLURM_SUCCESS, st, [])
  else
    match slurm_get_cli_filter_plugins env with
    | None =>
        (SLURM_SUCCESS, mk_cf_state 0 (g_context st) None (init_run st), [CfGetPlugins])
    | Some list =>
        if (list =? "")%string then
          (SLURM_SUCCESS, mk_cf_state 0 (g_context st) (Some list) (init_run st),
           [CfGetPlugins])
        else
          let '(rc, cnt, ctxs, t) :=
            init_loop (strtok_tokens "," list "") 0 (g_context st) in
          let st1 := mk_cf_state cnt ctxs (Some (strtok_clobbered "," list)) true in
          if negb (rc =? SLURM_SUCCESS) then
            let r := cli_filter_plugin_fini st1 in
            (rc, snd (fst r), CfGetPlugins :: t ++ snd r)
          else (rc, st1, CfGetPlugins :: t)
    end.

Definition cli_filter_plugin_reconfig (st : cli_filter_state)
    : Z * cli_filter_state * list cf_event :=
  let plugin_change :=
    match slurm_get_cli_filter_plugins env, clifilter_plugin_list st with
    | Some plugin_names, Some list => negb (strcmp plugin_names list =? 0)
    | _, _ => false
    end in
  if plugin_change then
    let r := cli_filter_plugin_fini st in
    if fst (fst r) =? SLURM_SUCCESS then
      let r' := cli_filter_plugin_init (snd (fst r)) in
      (fst (fst r'), snd (fst r'), CfGetPlugins :: snd r ++ snd r')
    else (fst (fst r), snd (fst r), CfGetPlugins :: snd r)
  else (SLURM_SUCCESS, st, [CfGetPlugins]).

(** The for loop of cli_filter_plugin_pre_submit over the contexts left. *)
Fixpoint pre_submit_loop (ctxs : list plugin_context_t) (type : Z) (rc : Z) (data : D)
    : Z * D * list cf_event :=
  match ctxs with
  | [] => (rc, data, [])
  | c :: rest =>
      if rc =? SLURM_SUCCESS then
        let r := ops_pre_submit env c type data in
        let '(rc', data', t) := pre_submit_loop rest type (fst r) (snd r) in
        (rc', data', CfPreSubmit c :: t)
      else (rc, data, [])
  end.

Definition cli_filter_plugin_pre_submit (st : cli_filter_state) (type : Z) (data : D)
    : Z * D * cli_filter_state * list cf_event :=
  let '(rc, st1, t) := cli_filter_plugin_init st in
  let '(rc', data', t') :=
    pre_submit_loop (firstn (Z.to_nat (g_context_cnt st1)) (g_context st1))
      type rc data in
  (rc', data', st1, t ++ t').

(** The for loop of cli_filter_plugin_post_submit. *)
Fixpoint post_submit_loop (ctxs : list plugin_context_t) (type jobid : Z) (rc : Z)
    (data : D) : Z * D * list cf_event :=
  match ctxs with
  | [] => (rc, data, [])
  | c :: rest =>
      if rc =? SLURM_SUCCESS then
        let r := ops_post_submit env c type jobid data in
        let '(rc', data', t) := post_submit_loop rest type jobid (fst r) (snd r) in
        (rc', data', CfPostSubmit c :: t)
      else (rc, data, [])
  end.

Definition cli_filter_plugin_post_submit (st : cli_filter_state) (type jobid : Z)
    (data : D) : Z * D * cli_filter_state * list cf_event :=
  let '(rc, st1, t) := cli_filter_plugin_init st in
  let '(rc', data', t') :=
    post_submit_loop (firstn (Z.to_nat (g_context_cnt st1)) (g_context st1))
      type jobid rc data in
  (rc', data', st1, t ++ t').

(** Every plugin of [ctxs] accepts in turn, taking [data] to [data']. *)
Fixpoint pre_submit_all_accept (ctxs : list plugin_context_t) (type : Z)
    (data data' : D) : Prop :=
  match ctxs with
  | [] => data' = data
  | c :: rest =>
      fst (ops_pre_submit env c type data) = SLURM_SUCCESS
      /\ pre_submit_all_accept rest type (snd (ops_pre_submit env c type data)) data'
  end.

(** The same for post_submit. *)
Fixpoint post_submit_all_accept (ctxs : list plugin_context_t) (type jobid : Z)
    (data data' : D) : Prop :=
  match ctxs with
  | [] => data' = data
  | c :: rest =>
      fst (ops_post_submit env c type jobid data) = SLURM_SUCCESS
      /\ post_submit_all_accept rest type jobid
           (snd (ops_post_submit env c type jobid data)) data'
  end.

End CliFilter.

Arguments post_submit_all_accept {D}.
Arguments slurm_get_cli_filter_plugins {D}.
Arguments plugin_context_create {D}.
Arguments plugin_context_destroy {D}.
Arguments ops_pre_submit {D}.
Arguments ops_post_submit {D}.
Arguments fini_loop {D}.
Arguments cli_filter_plugin_fini {D}.
Arguments init_loop {D}.
Arguments cli_filter_plugin_init {D}.
Arguments cli_filter_plugin_reconfig {D}.
Arguments pre_submit_loop {D}.
Arguments cli_filter_plugin_pre_submit {D}.
Arguments post_submit_loop {D}.
Arguments cli_filter_plugin_post_submit {D}.
Arguments pre_submit_all_accept {D}.

(** The request for the context of one name of the list. *)
Definition requested (name : string) : cf_event :=
  CfCreate "cli_filter" (cli_filter_type_name name).

(** The contexts the plugin layer gives for a run of names. *)
Definition created {D : Type} (env : cli_filter_env D) (names : list string)
    (cs : list plugin_context_t) : Prop :=
  Forall2 (fun n c => plugin_context_create env "cli_filter" (cli_filter_type_name n)
                      = Some c) names cs.

(** The driver holds a chain: the count is the number of contexts. *)
Definition cf_initialized (st : cli_filter_state) : Prop :=
  g_context_cnt st = Z.of_nat (List.length (g_context st)).

(** A world for the driver: the names lua and syslog are configured, every
    context can be created, the pre_submit of context 2 refuses, and the
    post_submit of context 1 returns an error number of its own. *)
Definition cf_env_two : cli_filter_env nat :=
  mk_cf_env nat (Some "lua,cli_filter/syslog")
    (fun _ type => if (type =? "cli_filter/lua")%string then Some 1 else Some 2)
    (fun _ => SLURM_SUCCESS)
    (fun c _ d => (if c =? 2 then SLURM_ERROR else SLURM_SUCCESS, S d))
    (fun c _ _ d => (if c =? 1 then 2004 else SLURM_SUCCESS, S d)).

(** The driver after it built the chain of [cf_env_two]. *)
Definition cf_state_two : cli_filter_state :=
  mk_cf_state 2 [1; 2] (Some "lua") true.

(** A world in which the second of three configured plugins is missing. *)
Definition cf_env_missing : cli_filter_env nat :=
  mk_cf_env nat (Some "lua,nothere,syslog")
    (fun _ type => if (type =? "cli_filter/lua")%string then Some 1
                   else if (type =? "cli_filter/nothere")%string then None
                   else Some 3)
    (fun _ => SLURM_SUCCESS)
    (fun _ _ d => (SLURM_SUCCESS, d))
    (fun _ _ _ d => (SLURM_SUCCESS, d)).

(** ** Computations: basic facts *)

Lemma bind_returns {A B : Type} (m : M A) (f : A -> M B) (b : B) (t : list event) :
  bind m f = Some (b, t) ->
  exists a t1 t2, m = Some (a, t1) /\ f a = Some (b, t2) /\ t = t1 ++ t2.
Proof.
  unfold bind. destruct m as [[a t1]|]; [|discriminate].
  destruct (f a) as [[b' t2]|] eqn:Hf; [|discriminate].
  intros H. inversion H; subst. exists a, t1, t2. auto.
Qed.

Ltac unfold_m :=
  unfold sys_stat, sys_opendir, do_plugin_peek, do_plugin_load_from_file,
    plugin_unload, xassert, int_incr, int_decr, undefined, emit, bind, ret in *.

(** ** Lists of entries *)


Lemma finished_with_plugin_loop_hit (p : plugin_handle_t)
    (l1 : list plugrack_entry_t) (e : plugrack_entry_t) (l2 : list plugrack_entry_t) :
  Forall (fun x => plug x <> p) l1 ->
  plug e = p ->
  INT_MIN < refcount e ->
  finished_with_plugin_loop p (l1 ++ e :: l2)
  = Some ((SLURM_SUCCESS, l1 ++ set_refcount e (Z.max 0 (refcount e - 1)) :: l2), []).
Proof.
  intros Hl1 Hp Hmin. induction Hl1 as [|a l1 Ha _ IH]; simpl.
  - apply Z.eqb_eq in Hp. rewrite Hp. unfold_m.
    apply Z.ltb_lt in Hmin. rewrite Hmin. simpl.
    replace (if refcount e - 1 <? 0 then 0 else refcount e - 1)
      with (Z.max 0 (refcount e - 1)); [reflexivity|].
    destruct (Z.ltb_spec (refcount e - 1) 0); lia.
  - apply Z.eqb_neq in Ha. rewrite Ha, IH. reflexivity.
Qed.

Lemma purge_idle_loop_spec (es : list plugrack_entry_t) :
  purge_idle_loop es
  = Some (map purge_entry es, map (fun e => EvUnload (plug e)) (filter is_idle es)).
Proof.
  induction es as [|e es IH]; simpl; [reflexivity|].
  rewrite IH. unfold purge_entry, is_idle.
  destruct (negb (plug e =? PLUGIN_INVALID_HANDLE) && (refcount e =? 0));
    unfold plugin_unload, emit, bind, ret; simpl; rewrite ?app_nil_r; reflexivity.
Qed.

Lemma is_idle_iff (e : plugrack_entry_t) :
  is_idle e = true <-> loaded e /\ refcount e = 0.
Proof.
  unfold is_idle, loaded. rewrite andb_true_iff, negb_true_iff, Z.eqb_neq, Z.eqb_eq.
  tauto.
Qed.

(** ** Teardown *)

(** C4: when some entry of the rack has a reference count above zero,
    plugrack_destroy returns SLURM_ERROR, which is not the success status,
    the caller is left with the very same rack (no entry removed, no handle
    and no count changed), and no call left the rack, so nothing was
    unloaded. *)
Theorem destroy_refused_while_in_use (rack : plugrack) :
  (exists e, In e (entries rack) /\ refcount e > 0) ->
  plugrack_destroy rack = Some ((SLURM_ERROR, Some rack), [])
  /\ SLURM_ERROR <> SLURM_SUCCESS.
Proof.
  intros [e [Hin Hpos]]. split; [|discriminate].
  unfold plugrack_destroy.
  assert (Hex : existsb (fun e => refcount e >? 0) (entries rack) = true).
  { apply existsb_exists. exists e. split; [exact Hin|].
    apply Z.gtb_lt. lia. }
  rewrite Hex. reflexivity.
Qed.

Lemma destroy_refused_while_in_use_witness :
  (exists e, In e (entries (munge_rack 4096 2)) /\ refcount e > 0)
  /\ plugrack_destroy (munge_rack 4096 2)
     = Some ((SLURM_ERROR, Some (munge_rack 4096 2)), []).
Proof.
  assert (H : exists e, In e (entries (munge_rack 4096 2)) /\ refcount e > 0).
  { exists (munge_entry 4096 2). split; [left; reflexivity | reflexivity]. }
  split; [exact H|].
  exact (proj1 (destroy_refused_while_in_use (munge_rack 4096 2) H)).
Defined.

(** ** Idle sweep *)

(** C6: plugrack_purge_idle always returns; the modules it unloads are, in
    rack order, exactly those of the entries that are loaded with a
    reference count of zero; each of these entries is left not loaded with
    its other fields as they were, and every other entry, so every entry
    with a positive reference count, is left as it was. *)
Theorem purge_idle_unloads_exactly_idle (rack : plugrack) :
  plugrack_purge_idle rack
  = Some ((SLURM_SUCCESS, set_entries rack (map purge_entry (entries rack))),
          map (fun e => EvUnload (plug e)) (filter is_idle (entries rack)))
  /\ (forall e, In e (filter is_idle (entries rack)) <->
                In e (entries rack) /\ loaded e /\ refcount e = 0)
  /\ (forall e, loaded e /\ refcount e = 0 ->
                purge_entry e = set_plug e PLUGIN_INVALID_HANDLE)
  /\ (forall e, refcount e > 0 -> purge_entry e = e)
  /\ (forall e, ~ loaded e -> purge_entry e = e).
Proof.
  split; [|split; [|split; [|split]]].
  - unfold plugrack_purge_idle. rewrite purge_idle_loop_spec.
    unfold bind, ret. rewrite app_nil_r. reflexivity.
  - intros e. rewrite filter_In, is_idle_iff. tauto.
  - intros e He. unfold purge_entry. apply is_idle_iff in He. rewrite He. reflexivity.
  - intros e He. unfold purge_entry.
    destruct (is_idle e) eqn:Hi; [|reflexivity].
    apply is_idle_iff in Hi. lia.
  - intros e He. unfold purge_entry.
    destruct (is_idle e) eqn:Hi; [|reflexivity].
    apply is_idle_iff in Hi. tauto.
Qed.

Lemma purge_idle_unloads_exactly_idle_witness :
  plugrack_purge_idle rack_idle
  = Some ((SLURM_SUCCESS,
           mk_rack [munge_entry PLUGIN_INVALID_HANDLE 0; munge_entry 8192 2;
                    munge_entry PLUGIN_INVALID_HANDLE 0] None 99 0),
          [EvUnload 4096])
  /\ In (munge_entry 4096 0) (filter is_idle (entries rack_idle))
  /\ purge_entry (munge_entry 4096 0) = munge_entry PLUGIN_INVALID_HANDLE 0
  /\ purge_entry (munge_entry 8192 2) = munge_entry 8192 2
  /\ purge_entry (munge_entry PLUGIN_INVALID_HANDLE 0)
     = munge_entry PLUGIN_INVALID_HANDLE 0.
Proof.
  destruct (purge_idle_unloads_exactly_idle rack_idle)
    as [Hrun [Hin [Hidle [Hused Hunloaded]]]].
  assert (Hl : loaded (munge_entry 4096 0)) by (unfold loaded; discriminate).
  split; [exact Hrun|].
  split; [apply Hin; split; [left; reflexivity|]; split; [exact Hl|reflexivity]|].
  split; [exact (Hidle (munge_entry 4096 0) (conj Hl eq_refl))|].
  split; [exact (Hused (munge_entry 8192 2) eq_refl)|].
  apply Hunloaded. unfold loaded. intros H. apply H. reflexivity.
Defined.

(** ** Release *)



(** ** Acquisition *)

(** What plugrack_use_by_type does to the first entry of the requested
    type, whatever the world: the count moves exactly when the handle the
    caller gets is the invalid one. *)
Lemma use_by_type_first_match (env : environment) (rack : plugrack) (type : string)
    (l1 : list plugrack_entry_t) (e : plugrack_entry_t) (l2 : list plugrack_entry_t) :
  entries rack = l1 ++ e :: l2 ->
  Forall (fun x => strcmp type (full_type x) <> 0) l1 ->
  strcmp type (full_type e) = 0 ->
  refcount e < INT_MAX ->
  let p := if plug e =? PLUGIN_INVALID_HANDLE
           then plugin_load_from_file env (fq_path e) else plug e in
  let n := if p =? PLUGIN_INVALID_HANDLE then refcount e + 1 else refcount e in
  value (plugrack_use_by_type env rack type)
  = Some (p, set_entries rack (l1 ++ mk_entry (full_type e) (fq_path e) p n :: l2)).
Proof.
  intros Hes Hl1 He Hmax p n. unfold plugrack_use_by_type. rewrite Hes.
  assert (Hloop : value (use_by_type_loop env type (l1 ++ e :: l2))
                  = Some (p, l1 ++ mk_entry (full_type e) (fq_path e) p n :: l2)).
  { clear Hes. induction Hl1 as [|a l1 Ha _ IH]; simpl.
    - apply Z.eqb_eq in He. rewrite He. simpl. subst n p.
      apply Z.ltb_lt in Hmax.
      destruct (plug e =? PLUGIN_INVALID_HANDLE); unfold_m; simpl.
      + destruct (plugin_load_from_file env (fq_path e) =? PLUGIN_INVALID_HANDLE);
          simpl; rewrite ?Hmax; reflexivity.
      + destruct (plug e =? PLUGIN_INVALID_HANDLE); simpl; rewrite ?Hmax; reflexivity.
    - apply Z.eqb_neq in Ha. rewrite Ha. simpl.
      destruct (use_by_type_loop env type (l1 ++ e :: l2)) as [[[h es'] t]|];
        [|discriminate].
      simpl in IH. inversion IH; subst. reflexivity. }
  destruct (use_by_type_loop env type (l1 ++ e :: l2)) as [[[h es'] t]|];
    [|discriminate].
  simpl in Hloop. inversion Hloop; subst. reflexivity.
Qed.

(** C2 (evaluation of the code): on a rack whose only entry is an unloaded
    auth/munge plugin with no users, a load that succeeds hands the live
    handle back and leaves the reference count at zero, and so does a
    request for a plugin that is already loaded; a load that fails hands
    PLUGIN_INVALID_HANDLE back and raises the reference count to one. *)
Theorem use_by_type_counts_failed_loads :
  plugrack_use_by_type (env_loader 4096) (munge_rack PLUGIN_INVALID_HANDLE 0) "auth/munge"
  = Some ((4096, munge_rack 4096 0), [EvLoad munge_path])
  /\ plugrack_use_by_type (env_loader 4096) (munge_rack 8192 0) "auth/munge"
     = Some ((8192, munge_rack 8192 0), [])
  /\ plugrack_use_by_type (env_loader PLUGIN_INVALID_HANDLE)
       (munge_rack PLUGIN_INVALID_HANDLE 0) "auth/munge"
     = Some ((PLUGIN_INVALID_HANDLE, munge_rack PLUGIN_INVALID_HANDLE 1),
             [EvLoad munge_path]).
Proof.
  repeat split; reflexivity.
Qed.

Lemma reachable_after_failed_load : reachable (munge_rack PLUGIN_INVALID_HANDLE 1).
Proof.
  apply (reachable_perform (env_loader PLUGIN_INVALID_HANDLE)
           (OpUseByType "auth/munge") (munge_rack PLUGIN_INVALID_HANDLE 0)
           _ [EvLoad munge_path]); [|reflexivity].
  apply (reachable_perform (env_loader PLUGIN_INVALID_HANDLE)
           (OpAddPluginFile munge_path) plugrack_create
           _ [EvPeek munge_path]); [|reflexivity].
  apply reachable_create.
Qed.

(** C3 (evaluation of the code): registering a plugin file and then
    requesting its type while the load fails is a sequence of public
    operations that ends in a rack whose entry has a reference count of one
    and no loaded handle. *)
Theorem failed_load_leaves_referenced_unloaded_entry :
  reachable (munge_rack PLUGIN_INVALID_HANDLE 1)
  /\ exists e, In e (entries (munge_rack PLUGIN_INVALID_HANDLE 1))
               /\ refcount e > 0 /\ ~ loaded e.
Proof.
  split; [exact reachable_after_failed_load|].
  exists (munge_entry PLUGIN_INVALID_HANDLE 1).
  split; [left; reflexivity|]. split; [reflexivity|].
  unfold loaded. intros H. apply H. reflexivity.
Qed.

(** ** Warm-up *)

Lemma load_all_loop_returns (env : environment) (es : list plugrack_entry_t) :
  exists t, load_all_loop env es = Some (tt, t).
Proof.
  induction es as [|e es [t IH]]; simpl; [exists []; reflexivity|].
  rewrite IH. destruct (plug e =? PLUGIN_INVALID_HANDLE); unfold_m; eauto.
Qed.

(** plugrack_load_all hands every rack back as it got it. *)
Lemma load_all_keeps_rack (env : environment) (rack : plugrack) :
  exists t, plugrack_load_all env rack = Some ((SLURM_SUCCESS, rack), t).
Proof.
  unfold plugrack_load_all.
  destruct (load_all_loop_returns env (entries rack)) as [t Ht].
  rewrite Ht. unfold_m. eauto.
Qed.

(** C7 (evaluation of the code): on a rack whose only entry is not loaded,
    in a world where loading its file succeeds with handle 4096,
    plugrack_load_all calls the loader on the file and returns
    SLURM_SUCCESS, and the entry is still not loaded afterwards. *)
Theorem load_all_drops_the_handle :
  plugrack_load_all (env_loader 4096) (munge_rack PLUGIN_INVALID_HANDLE 0)
  = Some ((SLURM_SUCCESS, munge_rack PLUGIN_INVALID_HANDLE 0), [EvLoad munge_path])
  /\ plugin_load_from_file (env_loader 4096) munge_path <> PLUGIN_INVALID_HANDLE
  /\ Forall (fun e => ~ loaded e) (entries (munge_rack PLUGIN_INVALID_HANDLE 0)).
Proof.
  split; [reflexivity|]. split; [discriminate|].
  repeat constructor. unfold loaded. intros H. apply H. reflexivity.
Qed.

(** ** Mode bits *)

Lemma land_bit_zero (m k : Z) :
  0 <= k -> (Z.land m (2 ^ k) =? 0) = negb (Z.testbit m k).
Proof.
  intros Hk. destruct (Z.testbit m k) eqn:Hb; simpl.
  - apply Z.eqb_neq. intros H0.
    assert (Hk' : Z.testbit (Z.land m (2 ^ k)) k = true).
    { rewrite Z.land_spec, Hb, Z.pow2_bits_true; auto. }
    rewrite H0, Z.bits_0 in Hk'. discriminate.
  - apply Z.eqb_eq. apply Z.bits_inj'. intros n Hn.
    rewrite Z.land_spec, Z.bits_0, Z.pow2_bits_eqb by assumption.
    destruct (Z.eqb_spec k n) as [->|]; [rewrite Hb|]; auto using andb_false_r.
Qed.

(** ** The check of one node *)

Lemma accept_path_paranoia_decides (env : environment) (rack : plugrack)
    (path : string) (check_own check_write : Z) :
  accept_path_paranoia env rack path check_own check_write
  = Some (node_decision (stat env path) (uid rack) (truth check_own) (truth check_write),
          [EvStat path]).
Proof.
  unfold accept_path_paranoia, node_decision, truth, sys_stat.
  destruct (stat env path) as [st|]; [|reflexivity].
  unfold emit, ret, bind. cbv beta iota.
  change S_IWGRP with (2 ^ 4). change S_IWOTH with (2 ^ 1).
  rewrite !land_bit_zero by lia. rewrite !negb_involutive.
  destruct (negb (check_own =? 0) && negb (st_uid st =? uid rack)); [reflexivity|].
  destruct (negb (check_write =? 0)
            && (Z.testbit (st_mode st) 4 || Z.testbit (st_mode st) 1)); reflexivity.
Qed.

Lemma accept_paranoia_returns (env : environment) (rack : plugrack) (path : string) :
  exists b t, accept_paranoia env rack path = Some (b, t).
Proof.
  unfold accept_paranoia. destruct (paranoia rack =? 0); [unfold ret; eauto|].
  rewrite accept_path_paranoia_decides.
  destruct (node_decision (stat env path) _ _ _); simpl; [|unfold ret; eauto].
  destruct (strrchr path "/"); [|unfold ret; eauto].
  rewrite accept_path_paranoia_decides. eauto.
Qed.

(** ** What the operations do to the entries *)

Lemma Forall2_refcount_refl (es : list plugrack_entry_t) :
  Forall2 (fun e e' => refcount e <= refcount e') es es.
Proof.
  induction es; constructor; auto. lia.
Qed.

Lemma add_plugin_file_effect (env : environment) (rack : plugrack) (path : string) :
  exists status rack' t,
    plugrack_add_plugin_file env rack path = Some ((status, rack'), t)
    /\ (rack' = rack
        \/ exists type,
             rack' = set_entries rack
                       (entries rack ++ [mk_entry type path PLUGIN_INVALID_HANDLE 0])).
Proof.
  unfold plugrack_add_plugin_file.
  destruct (accept_paranoia_returns env rack path) as [b [t ->]].
  destruct b; simpl; [|unfold ret; eauto 6].
  unfold do_plugin_peek, emit, ret. simpl.
  destruct (plugin_peek env path type_len) as [type|]; [|eauto 6].
  destruct (major_type_mismatch rack type); [eauto 6|].
  unfold plugrack_add_plugin_path, ret. eauto 8.
Qed.

Ltac rack_kept rack :=
  exists rack; eexists; exists (@nil plugrack_entry_t);
  rewrite app_nil_r; repeat split; constructor.

Lemma read_dir_entry_effect (env : environment) (rack : plugrack) (dir d_name : string) :
  exists rack' t extra,
    read_dir_entry env rack dir d_name = Some (rack', t)
    /\ entries rack' = entries rack ++ extra
    /\ Forall (fun e => refcount e = 0) extra.
Proof.
  unfold read_dir_entry. generalize (dir ++ "/" ++ d_name)%string. intros path.
  unfold sys_stat, emit, ret. simpl.
  destruct (stat env path) as [st|]; [|rack_kept rack].
  destruct (S_ISREG (st_mode st)); simpl; [|rack_kept rack].
  rewrite accept_path_paranoia_decides.
  destruct (node_decision (stat env dir) _ _ _); simpl; [|rack_kept rack].
  unfold do_plugin_peek, emit, ret. simpl.
  destruct (plugin_peek env path type_len) as [type|]; [|rack_kept rack].
  destruct (major_type_mismatch rack type); [rack_kept rack|].
  simpl. do 2 eexists.
  exists [mk_entry type path PLUGIN_INVALID_HANDLE 0].
  repeat split. repeat constructor.
Qed.

Lemma read_dir_loop_effect (env : environment) (dir : string) (names : list string) :
  forall rack,
  exists rack' t extra,
    read_dir_loop env rack dir names = Some (rack', t)
    /\ entries rack' = entries rack ++ extra
    /\ Forall (fun e => refcount e = 0) extra.
Proof.
  induction names as [|d_name names IH]; intros rack; simpl.
  - exists rack, [], []. rewrite app_nil_r. auto.
  - destruct (read_dir_entry_effect env rack dir d_name) as [r1 [t1 [x1 [H1 [E1 F1]]]]].
    destruct (IH r1) as [r2 [t2 [x2 [H2 [E2 F2]]]]].
    exists r2, (t1 ++ t2), (x1 ++ x2). split; [|split].
    + rewrite H1. unfold bind. rewrite H2. reflexivity.
    + rewrite E2, E1, app_assoc. reflexivity.
    + apply Forall_app. auto.
Qed.

Lemma read_dir_effect (env : environment) (rack : plugrack) (dir : string) :
  exists status rack' t extra,
    plugrack_read_dir env rack dir = Some ((status, rack'), t)
    /\ entries rack' = entries rack ++ extra
    /\ Forall (fun e => refcount e = 0) extra.
Proof.
  unfold plugrack_read_dir. rewrite accept_path_paranoia_decides.
  destruct (node_decision (stat env dir) _ _ _); simpl;
    [|unfold ret; eexists; rack_kept rack].
  unfold sys_opendir, emit, ret. simpl.
  destruct (opendir env dir) as [names|]; [|eexists; rack_kept rack].
  destruct (read_dir_loop_effect env dir names rack) as [r [t [x [H [E F]]]]].
  unfold bind. rewrite H. eauto 8.
Qed.

Lemma use_by_type_loop_effect (env : environment) (type : string) :
  forall es h es' t,
    match find (fun e => strcmp type (full_type e) =? 0) es with
    | Some e =>
        (INT_MAX <=? refcount e)
        && ((if plug e =? PLUGIN_INVALID_HANDLE
             then plugin_load_from_file env (fq_path e) else plug e)
            =? PLUGIN_INVALID_HANDLE)
    | None => false
    end = false ->
    use_by_type_loop env type es = Some ((h, es'), t) ->
    Forall2 (fun e e' => refcount e <= refcount e') es es'.
Proof.
  induction es as [|e es IH]; intros h es' t Hov H; simpl in H, Hov.
  - unfold ret in H. inversion H. constructor.
  - destruct (strcmp type (full_type e) =? 0); cbn [negb] in H.
    + assert (Hn : exists t0 n,
                 Some ((h, es'), t)
                 = Some (((if plug e =? PLUGIN_INVALID_HANDLE
                           then plugin_load_from_file env (fq_path e) else plug e),
                          mk_entry (full_type e) (fq_path e)
                            (if plug e =? PLUGIN_INVALID_HANDLE
                             then plugin_load_from_file env (fq_path e) else plug e)
                            n :: es), t0)
                 /\ refcount e <= n).
      { rewrite <- H. clear H.
        destruct (plug e =? PLUGIN_INVALID_HANDLE) eqn:Hp;
          unfold do_plugin_load_from_file, int_incr, emit, ret, bind; simpl.
        - destruct (plugin_load_from_file env (fq_path e) =? PLUGIN_INVALID_HANDLE);
            simpl.
          + rewrite andb_true_r in Hov.
            assert (Hlt : (refcount e <? INT_MAX) = true).
            { apply Z.ltb_lt. apply Z.leb_gt in Hov. exact Hov. }
            rewrite Hlt. do 2 eexists. split; [reflexivity|lia].
          + do 2 eexists. split; [reflexivity|lia].
        - rewrite Hp. do 2 eexists. split; [reflexivity|lia]. }
      destruct Hn as [t0 [n [Heq Hle]]]. inversion Heq; subst.
      constructor; [exact Hle|apply Forall2_refcount_refl].
    + apply bind_returns in H. destruct H as [[h0 es0] [t1 [t2 [H1 [H2 _]]]]].
      unfold ret in H2. inversion H2; subst. simpl.
      constructor; [lia|]. eapply IH; eauto.
Qed.

Lemma finished_with_plugin_loop_nonneg (p : plugin_handle_t) :
  forall es status es' t,
    finished_with_plugin_loop p es = Some ((status, es'), t) ->
    Forall (fun e => 0 <= refcount e) es ->
    Forall (fun e => 0 <= refcount e) es'.
Proof.
  induction es as [|e es IH]; intros status es' t H Hnn; simpl in H.
  - unfold ret in H. inversion H. constructor.
  - inversion Hnn as [|? ? He Hes]; subst.
    destruct (plug e =? p).
    + apply bind_returns in H. destruct H as [n [t1 [t2 [_ [H2 _]]]]].
      unfold ret in H2. inversion H2; subst.
      constructor; [simpl|assumption].
      destruct (Z.ltb_spec n 0); lia.
    + apply bind_returns in H. destruct H as [[s0 es0] [t1 [t2 [H1 [H2 _]]]]].
      unfold ret in H2. inversion H2; subst. simpl.
      constructor; [assumption|]. eapply IH; eauto.
Qed.

Lemma purge_entries_refcount (es : list plugrack_entry_t) :
  Forall2 (fun e e' => refcount e <= refcount e') es (map purge_entry es).
Proof.
  induction es as [|e es IH]; simpl; constructor; auto.
  unfold purge_entry. destruct (is_idle e); simpl; lia.
Qed.

Lemma Forall2_nth_error_app {A : Type} (R : A -> A -> Prop) (es kept extra : list A) :
  Forall2 R es kept ->
  forall i e, nth_error es i = Some e ->
  exists e', nth_error (kept ++ extra) i = Some e' /\ R e e'.
Proof.
  induction 1 as [|a b es kept Hab _ IH]; intros i e Hi.
  - destruct i; discriminate.
  - destruct i as [|i]; simpl in *.
    + inversion Hi; subst. eauto.
    + apply IH. exact Hi.
Qed.

Lemma Forall2_refcount_nonneg (es kept : list plugrack_entry_t) :
  Forall2 (fun e e' => refcount e <= refcount e') es kept ->
  Forall (fun e => 0 <= refcount e) es ->
  Forall (fun e => 0 <= refcount e) kept.
Proof.
  induction 1 as [|a b es kept Hab _ IH]; intros Hnn; constructor;
    inversion Hnn; subst; auto. lia.
Qed.

(** Every public operation but the release keeps the entries it found, in
    place and with counts at least as high, and appends entries with a
    count of zero. *)
Lemma perform_keeps_counts (env : environment) (op : operation)
    (rack rack' : plugrack) (t : list event) :
  (forall p, op <> OpFinishedWithPlugin p) ->
  overflows env op rack = false ->
  perform env op rack = Some (Some rack', t) ->
  exists kept extra,
    entries rack' = kept ++ extra
    /\ Forall2 (fun e e' => refcount e <= refcount e') (entries rack) kept
    /\ Forall (fun e => refcount e = 0) extra.
Proof.
  intros Hop Hov H. destruct op; simpl in H, Hov.
  - unfold plugrack_set_major_type, bind, ret in H. inversion H; subst. simpl.
    exists (entries rack), []. rewrite app_nil_r.
    auto using Forall2_refcount_refl.
  - unfold plugrack_set_paranoia, bind, ret in H. inversion H; subst. simpl.
    exists (entries rack), []. rewrite app_nil_r.
    auto using Forall2_refcount_refl.
  - destruct (add_plugin_file_effect env rack path) as [st [r [t0 [Heq Hr]]]].
    rewrite Heq in H. unfold bind, ret in H. simpl in H. inversion H; subst.
    destruct Hr as [->|[type ->]]; simpl.
    + exists (entries rack), []. rewrite app_nil_r.
      auto using Forall2_refcount_refl.
    + exists (entries rack), [mk_entry type path PLUGIN_INVALID_HANDLE 0].
      split; [reflexivity|]. split; [apply Forall2_refcount_refl|].
      repeat constructor.
  - destruct (read_dir_effect env rack dir) as [st [r [t0 [extra [Heq [He Hx]]]]]].
    rewrite Heq in H. unfold bind, ret in H. simpl in H. inversion H; subst.
    exists (entries rack), extra. auto using Forall2_refcount_refl.
  - unfold plugrack_purge_idle in H. rewrite purge_idle_loop_spec in H.
    unfold bind, ret in H. simpl in H. inversion H; subst. simpl.
    exists (map purge_entry (entries rack)), []. rewrite app_nil_r.
    auto using purge_entries_refcount.
  - destruct (load_all_keeps_rack env rack) as [t0 Heq].
    rewrite Heq in H. unfold bind, ret in H. simpl in H. inversion H; subst.
    exists (entries rack'), []. rewrite app_nil_r.
    auto using Forall2_refcount_refl.
  - apply bind_returns in H. destruct H as [[h r] [t1 [t2 [H1 [H2 _]]]]].
    unfold ret in H2. inversion H2; subst. clear H2.
    unfold plugrack_use_by_type in H1.
    apply bind_returns in H1. destruct H1 as [[h0 es] [t3 [t4 [H3 [H4 _]]]]].
    unfold ret in H4. inversion H4; subst. simpl.
    exists es, []. rewrite app_nil_r. split; [reflexivity|]. split; [|constructor].
    eapply use_by_type_loop_effect; eauto.
  - exfalso. apply (Hop p). reflexivity.
  - unfold plugrack_destroy in H.
    destruct (existsb (fun e => refcount e >? 0) (entries rack)).
    + unfold bind, ret in H. simpl in H. inversion H; subst.
      exists (entries rack'), []. rewrite app_nil_r.
      auto using Forall2_refcount_refl.
    + apply bind_returns in H. destruct H as [[st r] [t1 [t2 [H1 [H2 _]]]]].
      apply bind_returns in H1. destruct H1 as [u [t3 [t4 [_ [H4 _]]]]].
      unfold ret in H2, H4. inversion H4; subst. inversion H2.
Qed.

Lemma perform_keeps_nonneg (env : environment) (op : operation)
    (rack rack' : plugrack) (t : list event) :
  Forall (fun e => 0 <= refcount e) (entries rack) ->
  overflows env op rack = false ->
  perform env op rack = Some (Some rack', t) ->
  Forall (fun e => 0 <= refcount e) (entries rack').
Proof.
  intros Hnn Hov H.
  assert (Hother : (forall p, op <> OpFinishedWithPlugin p) ->
                   Forall (fun e => 0 <= refcount e) (entries rack')).
  { intros Hop.
    destruct (perform_keeps_counts env op rack rack' t Hop Hov H)
      as [kept [extra [-> [Hk Hx]]]].
    apply Forall_app. split.
    - eapply Forall2_refcount_nonneg; eauto.
    - eapply Forall_impl; [|exact Hx]. simpl. intros e He. lia. }
  destruct op; try (apply Hother; intros q; discriminate).
  simpl in H. apply bind_returns in H. destruct H as [[st r] [t1 [t2 [H1 [H2 _]]]]].
  unfold ret in H2. inversion H2; subst. clear H2.
  unfold plugrack_finished_with_plugin in H1.
  apply bind_returns in H1. destruct H1 as [[st0 es] [t3 [t4 [H3 [H4 _]]]]].
  unfold ret in H4. inversion H4; subst. simpl.
  eapply finished_with_plugin_loop_nonneg; eauto.
Qed.

Lemma no_overflow_nonneg (rack : plugrack) :
  reachable_without_overflow rack ->
  Forall (fun e => 0 <= refcount e) (entries rack).
Proof.
  induction 1 as [|env op rack rack' t _ IH Hov Hstep].
  - constructor.
  - eapply perform_keeps_nonneg; eauto.
Qed.

Lemma no_overflow_after_failed_load :
  reachable_without_overflow (munge_rack PLUGIN_INVALID_HANDLE 1).
Proof.
  apply (no_overflow_perform (env_loader PLUGIN_INVALID_HANDLE)
           (OpUseByType "auth/munge") (munge_rack PLUGIN_INVALID_HANDLE 0)
           _ [EvLoad munge_path]); [|reflexivity|reflexivity].
  apply (no_overflow_perform (env_loader PLUGIN_INVALID_HANDLE)
           (OpAddPluginFile munge_path) plugrack_create
           _ [EvPeek munge_path]); [|reflexivity|reflexivity].
  apply no_overflow_create.
Qed.

(** A request whose load fails, on the rack that holds the one auth/munge
    entry with count [k] below INT_MAX, leaves that rack with count k + 1. *)
Lemma failed_request_counts (k : Z) :
  k < INT_MAX ->
  perform (env_loader PLUGIN_INVALID_HANDLE) (OpUseByType "auth/munge")
    (munge_rack PLUGIN_INVALID_HANDLE k)
  = Some (Some (munge_rack PLUGIN_INVALID_HANDLE (Z.succ k)), [EvLoad munge_path]).
Proof.
  intros Hk. apply Z.ltb_lt in Hk.
  unfold perform, plugrack_use_by_type, munge_rack, munge_entry.
  cbn [entries use_by_type_loop full_type fq_path plug refcount].
  change (strcmp "auth/munge" "auth/munge" =? 0) with true. cbn [negb].
  change (PLUGIN_INVALID_HANDLE =? PLUGIN_INVALID_HANDLE) with true. cbv iota.
  unfold do_plugin_load_from_file, int_incr, env_loader, emit, ret, bind.
  cbn [plugin_load_from_file].
  change (PLUGIN_INVALID_HANDLE =? PLUGIN_INVALID_HANDLE) with true. cbv iota beta.
  rewrite Hk. reflexivity.
Qed.

Lemma reachable_after_failed_loads (k : Z) :
  0 <= k -> k <= INT_MAX -> reachable (munge_rack PLUGIN_INVALID_HANDLE k).
Proof.
  intros Hk. pattern k. apply natlike_ind; [| |exact Hk].
  - intros _.
    apply (reachable_perform (env_loader PLUGIN_INVALID_HANDLE)
             (OpAddPluginFile munge_path) plugrack_create
             _ [EvPeek munge_path]); [|reflexivity].
    apply reachable_create.
  - intros x Hx IH Hle.
    apply (reachable_perform (env_loader PLUGIN_INVALID_HANDLE)
             (OpUseByType "auth/munge") (munge_rack PLUGIN_INVALID_HANDLE x)
             _ [EvLoad munge_path]).
    + apply IH. lia.
    + apply failed_request_counts. lia.
Qed.

(** ** Reference counts *)

(** C5 (as stated, refuted): registering one plugin file and then
    requesting its type 2^31 times while the load fails is a sequence of
    public operations.  The last request finds the count at INT_MAX and
    lowers it to INT_MIN, so the rack it leaves holds a negative count,
    and an operation other than the release has decreased a count. *)
Lemma refcount_wraps_to_negative :
  reachable (munge_rack PLUGIN_INVALID_HANDLE INT_MAX)
  /\ perform (env_loader PLUGIN_INVALID_HANDLE) (OpUseByType "auth/munge")
       (munge_rack PLUGIN_INVALID_HANDLE INT_MAX)
     = Some (Some (munge_rack PLUGIN_INVALID_HANDLE INT_MIN), [EvLoad munge_path])
  /\ reachable (munge_rack PLUGIN_INVALID_HANDLE INT_MIN)
  /\ ~ Forall (fun e => 0 <= refcount e)
         (entries (munge_rack PLUGIN_INVALID_HANDLE INT_MIN)).
Proof.
  assert (Hmax : reachable (munge_rack PLUGIN_INVALID_HANDLE INT_MAX)).
  { apply reachable_after_failed_loads; unfold INT_MAX; lia. }
  assert (Hstep : perform (env_loader PLUGIN_INVALID_HANDLE) (OpUseByType "auth/munge")
                    (munge_rack PLUGIN_INVALID_HANDLE INT_MAX)
                  = Some (Some (munge_rack PLUGIN_INVALID_HANDLE INT_MIN),
                          [EvLoad munge_path])) by reflexivity.
  split; [exact Hmax|]. split; [exact Hstep|]. split.
  - exact (reachable_perform _ _ _ _ _ Hmax Hstep).
  - intros H. inversion H as [|? ? H0 _]. simpl in H0. unfold INT_MIN in H0. lia.
Qed.

(** C5 (amended): in every rack that a sequence of public operations
    produces without a request finding the count of the entry that
    answers it at INT_MAX while its load fails, every reference count is
    at least zero; releasing a handle that an entry carries returns
    SLURM_SUCCESS and takes one off the count of the first such entry,
    stopping at zero, and changes nothing else; and after any other
    public operation that is not such a request every entry is still in
    its place with a count no lower than before. *)
Theorem refcount_nonnegative_without_overflow (rack : plugrack) :
  reachable_without_overflow rack ->
  Forall (fun e => 0 <= refcount e) (entries rack)
  /\ (forall p l1 e l2,
        entries rack = l1 ++ e :: l2 ->
        Forall (fun x => plug x <> p) l1 ->
        plug e = p ->
        plugrack_finished_with_plugin rack p
        = Some ((SLURM_SUCCESS,
                 set_entries rack
                   (l1 ++ set_refcount e (Z.max 0 (refcount e - 1)) :: l2)), []))
  /\ (forall env op rack' t,
        (forall p, op <> OpFinishedWithPlugin p) ->
        overflows env op rack = false ->
        perform env op rack = Some (Some rack', t) ->
        forall i e, nth_error (entries rack) i = Some e ->
        exists e', nth_error (entries rack') i = Some e'
                   /\ refcount e <= refcount e').
Proof.
  intros Hreach. pose proof (no_overflow_nonneg rack Hreach) as Hnn.
  split; [exact Hnn|]. split.
  - intros p l1 e l2 Hes Hl1 Hp.
    unfold plugrack_finished_with_plugin. rewrite Hes.
    rewrite finished_with_plugin_loop_hit; auto.
    rewrite Hes in Hnn. apply Forall_app in Hnn. destruct Hnn as [_ Hnn].
    inversion Hnn; subst. unfold INT_MIN. lia.
  - intros env op rack' t Hop Hov Hstep i e Hi.
    destruct (perform_keeps_counts env op rack rack' t Hop Hov Hstep)
      as [kept [extra [-> [Hk _]]]].
    eapply Forall2_nth_error_app in Hk; eauto.
Qed.

Lemma refcount_nonnegative_without_overflow_witness :
  reachable_without_overflow (munge_rack PLUGIN_INVALID_HANDLE 1)
  /\ Forall (fun e => 0 <= refcount e) (entries (munge_rack PLUGIN_INVALID_HANDLE 1)).
Proof.
  split; [exact no_overflow_after_failed_load|].
  exact (proj1 (refcount_nonnegative_without_overflow
                  (munge_rack PLUGIN_INVALID_HANDLE 1)
                  no_overflow_after_failed_load)).
Defined.

(** ** Path names *)

Lemma strrchr_absent (c : ascii) (s : string) :
  ~ In c (list_ascii_of_string s) -> strrchr s c = None.
Proof.
  induction s as [|a s IH]; simpl; intros Hnot; [reflexivity|].
  rewrite IH by tauto.
  destruct (Ascii.eqb_spec a c) as [->|]; [|reflexivity].
  exfalso. apply Hnot. left. reflexivity.
Qed.

Lemma strrchr_last (c : ascii) (d f : string) :
  ~ In c (list_ascii_of_string f) ->
  strrchr (d ++ String c f) c = Some (String.length d).
Proof.
  intros Hf. induction d as [|a d IH]; simpl.
  - rewrite (strrchr_absent c f Hf), Ascii.eqb_refl. reflexivity.
  - rewrite IH. reflexivity.
Qed.

Lemma substring_prefix (d s : string) :
  substring 0 (String.length d) (d ++ s) = d.
Proof.
  induction d as [|a d IH]; simpl.
  - destruct s; reflexivity.
  - rewrite IH. reflexivity.
Qed.

Lemma chop_last_element_dir (c : ascii) (d f : string) :
  d <> "" -> chop_last_element (d ++ String c f) (String.length d) = d.
Proof.
  intros Hd. unfold chop_last_element.
  destruct (String.length d) eqn:Hlen.
  - destruct d; [contradiction|discriminate].
  - rewrite <- Hlen. apply substring_prefix.
Qed.

(** ** Security validator *)

(** C8 (as the specification words it, refuted): with both switches off
    the reference definition accepts a node that cannot be statted, and
    accept_path_paranoia rejects it. *)
Lemma unstattable_node_rejected_with_switches_off :
  stat (env_loader 4096) "/nowhere" = None
  /\ spec_node_decision (stat (env_loader 4096) "/nowhere") (uid plugrack_create)
       (truth 0) (truth 0) = true
  /\ accept_path_paranoia (env_loader 4096) plugrack_create "/nowhere" 0 0
     = Some (false, [EvStat "/nowhere"]).
Proof.
  repeat split; reflexivity.
Qed.

(** C8 (amended): accept_path_paranoia stats the node once and rejects
    when that fails, whatever the switches; on a node that can be statted
    it rejects when the owner check is on and the owner is not the rack's
    uid, rejects when the writability check is on and the node is group-
    or other-writable, and accepts otherwise, so always when both switches
    are off.  accept_paranoia accepts every path without looking at it
    when the paranoia mask is empty; with a mask that is not empty it
    rejects a path without a '/', and for a path dir/file, with dir not
    empty and no '/' in file, it accepts exactly when the node check with
    the file flags accepts the path and the node check with the directory
    flags accepts dir. *)
Theorem paranoia_decision (env : environment) (rack : plugrack) :
  (forall path check_own check_write,
     accept_path_paranoia env rack path check_own check_write
     = Some (node_decision (stat env path) (uid rack)
               (truth check_own) (truth check_write), [EvStat path]))
  /\ (forall path st,
        stat env path = Some st ->
        node_decision (stat env path) (uid rack) false false = true)
  /\ (paranoia rack = 0 ->
      forall path, accept_paranoia env rack path = Some (true, []))
  /\ (paranoia rack <> 0 ->
      forall path,
        ~ In "/"%char (list_ascii_of_string path) ->
        value (accept_paranoia env rack path) = Some false)
  /\ (paranoia rack <> 0 ->
      forall dir file,
        dir <> "" ->
        ~ In "/"%char (list_ascii_of_string file) ->
        value (accept_paranoia env rack (dir ++ "/" ++ file))
        = Some (node_decision (stat env (dir ++ "/" ++ file)) (uid rack)
                  (truth (Z.land (paranoia rack) PLUGRACK_PARANOIA_FILE_OWN))
                  (truth (Z.land (paranoia rack) PLUGRACK_PARANOIA_FILE_WRITABLE))
                && node_decision (stat env dir) (uid rack)
                     (truth (Z.land (paranoia rack) PLUGRACK_PARANOIA_DIR_OWN))
                     (truth (Z.land (paranoia rack) PLUGRACK_PARANOIA_DIR_WRITABLE)))).
Proof.
  split; [|split; [|split; [|split]]].
  - intros. apply accept_path_paranoia_decides.
  - intros path st ->. reflexivity.
  - intros H0 path. unfold accept_paranoia. rewrite H0. reflexivity.
  - intros Hne path Hslash. unfold accept_paranoia.
    apply Z.eqb_neq in Hne. rewrite Hne.
    rewrite accept_path_paranoia_decides.
    destruct (node_decision (stat env path) _ _ _); simpl; [|reflexivity].
    rewrite (strrchr_absent _ _ Hslash). reflexivity.
  - intros Hne dir file Hdir Hslash. unfold accept_paranoia.
    apply Z.eqb_neq in Hne. rewrite Hne.
    change (dir ++ "/" ++ file)%string with (dir ++ String "/" file)%string.
    rewrite accept_path_paranoia_decides.
    destruct (node_decision (stat env (dir ++ String "/" file)) _ _ _); simpl;
      [|reflexivity].
    rewrite (strrchr_last _ dir file Hslash).
    rewrite (chop_last_element_dir _ dir file Hdir).
    rewrite accept_path_paranoia_decides. reflexivity.
Qed.

Lemma paranoia_decision_witness :
  accept_paranoia env_scan plugrack_create "evil.so" = Some (true, [])
  /\ value (accept_paranoia env_scan rack_scan "evil.so") = Some false
  /\ value (accept_paranoia env_scan rack_scan ("/opt/plugins" ++ "/" ++ "evil.so"))
     = Some false
  /\ node_decision (stat env_scan "/opt/plugins") (uid rack_scan) false false = true.
Proof.
  assert (Hne : paranoia rack_scan <> 0) by discriminate.
  assert (Hdir : "/opt/plugins" <> "") by discriminate.
  assert (Hfile : ~ In "/"%char (list_ascii_of_string "evil.so")).
  { simpl. intros H. repeat (destruct H as [H|H]; [discriminate|]). exact H. }
  destruct (paranoia_decision env_scan plugrack_create) as [_ [_ [H0 _]]].
  destruct (paranoia_decision env_scan rack_scan) as [_ [Hst [_ [Hno Hsplit]]]].
  split; [exact (H0 eq_refl "evil.so")|].
  split; [exact (Hno Hne "evil.so" Hfile)|].
  split; [exact (Hsplit Hne "/opt/plugins" "evil.so" Hdir Hfile)|].
  exact (Hst "/opt/plugins" (mk_stat 500 16877) eq_refl).
Defined.

(** ** Validation before the loader *)

Lemma accept_paranoia_only_stats (env : environment) (rack : plugrack)
    (path : string) (b : bool) (t : list event) :
  accept_paranoia env rack path = Some (b, t) -> only_stats t.
Proof.
  unfold accept_paranoia, only_stats.
  destruct (paranoia rack =? 0).
  - unfold ret. intros H. inversion H. constructor.
  - rewrite accept_path_paranoia_decides.
    destruct (node_decision (stat env path) _ _ _); simpl.
    + destruct (strrchr path "/").
      * rewrite accept_path_paranoia_decides. intros H. inversion H.
        repeat constructor; eauto.
      * intros H. inversion H. repeat constructor; eauto.
    + intros H. inversion H. repeat constructor; eauto.
Qed.

(** plugrack_add_plugin_file: the paranoia checks come first and make
    nothing but stat calls; plugin_peek is called, once and on the path
    given, only after they accepted, and a path they reject is answered
    with SLURM_ERROR. *)
Lemma add_plugin_file_checks_before_peek (env : environment) (rack : plugrack)
    (path : string) :
  (exists t,
     accept_paranoia env rack path = Some (false, t)
     /\ only_stats t
     /\ plugrack_add_plugin_file env rack path = Some ((SLURM_ERROR, rack), t))
  \/ (exists t status rack',
        accept_paranoia env rack path = Some (true, t)
        /\ only_stats t
        /\ plugrack_add_plugin_file env rack path
           = Some ((status, rack'), t ++ [EvPeek path])).
Proof.
  destruct (accept_paranoia_returns env rack path) as [b [t Hacc]].
  pose proof (accept_paranoia_only_stats env rack path b t Hacc) as Hst.
  unfold plugrack_add_plugin_file. rewrite Hacc.
  destruct b; [right|left].
  - unfold do_plugin_peek, emit, ret. simpl.
    destruct (plugin_peek env path type_len) as [type|]; [|eauto 8].
    destruct (major_type_mismatch rack type); [eauto 8|].
    unfold plugrack_add_plugin_path, ret. eauto 8.
  - exists t. simpl. rewrite app_nil_r. auto.
Qed.

(** C1 (evaluation of the code): the authorized user 500 owns the
    directory /opt/plugins, user 501 owns the regular file evil.so in it,
    and the rack asks for files owned by 500.  The node check with the
    file flags rejects /opt/plugins/evil.so, and plugrack_add_plugin_file
    refuses it without a call to the loader; plugrack_read_dir makes that
    check on the directory instead, then calls plugin_peek on the file and
    registers it. *)
Theorem read_dir_peeks_file_it_did_not_check :
  accept_path_paranoia env_scan rack_scan "/opt/plugins/evil.so"
    (Z.land (paranoia rack_scan) PLUGRACK_PARANOIA_FILE_OWN)
    (Z.land (paranoia rack_scan) PLUGRACK_PARANOIA_FILE_WRITABLE)
  = Some (false, [EvStat "/opt/plugins/evil.so"])
  /\ plugrack_add_plugin_file env_scan rack_scan "/opt/plugins/evil.so"
     = Some ((SLURM_ERROR, rack_scan), [EvStat "/opt/plugins/evil.so"])
  /\ plugrack_read_dir env_scan rack_scan "/opt/plugins"
     = Some ((SLURM_SUCCESS,
              set_entries rack_scan
                [mk_entry "auth/evil" "/opt/plugins/evil.so" PLUGIN_INVALID_HANDLE 0]),
             [EvStat "/opt/plugins"; EvOpendir "/opt/plugins";
              EvStat "/opt/plugins/evil.so"; EvStat "/opt/plugins";
              EvPeek "/opt/plugins/evil.so"]).
Proof.
  repeat split; reflexivity.
Qed.

(** ** Namespace filter *)

Lemma head_char_inj (a b : ascii) :
  Z.of_N (N_of_ascii a) = Z.of_N (N_of_ascii b) -> a = b.
Proof.
  intros H. apply N2Z.inj in H.
  rewrite <- (ascii_N_embedding a), <- (ascii_N_embedding b), H. reflexivity.
Qed.

Lemma head_char_nonzero (a : ascii) : a <> zero -> Z.of_N (N_of_ascii a) <> 0.
Proof.
  intros Ha H. apply Ha. apply head_char_inj. rewrite H. reflexivity.
Qed.

(** On a first argument without NUL, strncmp over its whole length is the
    prefix test. *)
Lemma strncmp_is_prefix (m : string) :
  nul_free m ->
  forall s, (strncmp m s (String.length m) =? 0) = String.prefix m s.
Proof.
  induction m as [|a m IH]; intros Hnul s.
  - destruct s; reflexivity.
  - destruct Hnul as [Ha Hm]. pose proof (head_char_nonzero a Ha) as Ha0.
    destruct s as [|b s]; simpl.
    + destruct (Z.eqb_spec (Z.of_N (N_of_ascii a)) 0) as [E|E]; [contradiction|].
      simpl. apply Z.eqb_neq. lia.
    + destruct (Z.eqb_spec (Z.of_N (N_of_ascii a)) (Z.of_N (N_of_ascii b))) as [E|E];
        simpl.
      * apply head_char_inj in E. subst b.
        destruct (Z.eqb_spec (Z.of_N (N_of_ascii a)) 0) as [E0|_]; [contradiction|].
        destruct (ascii_dec a a) as [_|N]; [|contradiction].
        apply IH. exact Hm.
      * destruct (ascii_dec a b) as [->|_]; [contradiction|].
        apply Z.eqb_neq. lia.
Qed.

Lemma major_type_mismatch_prefix (rack : plugrack) (declared : string) :
  (forall m, major_type rack = Some m -> nul_free m) ->
  major_type_mismatch rack declared
  = negb (namespace_accepts (major_type rack) declared).
Proof.
  intros Hnul. unfold major_type_mismatch, namespace_accepts.
  destruct (major_type rack) as [m|]; [|reflexivity].
  rewrite strncmp_is_prefix; auto.
Qed.

(** * Further properties of the rack *)

Lemma set_entries_same (rack : plugrack) : set_entries rack (entries rack) = rack.
Proof.
  destruct rack. reflexivity.
Qed.

(** ** Teardown of a rack no one uses *)

Lemma list_destroy_unreferenced (es : list plugrack_entry_t) :
  Forall (fun e => refcount e = 0) es ->
  list_destroy es = Some (tt, unloads is_loaded es).
Proof.
  induction 1 as [|e es He _ IH]; [reflexivity|].
  simpl. unfold plugrack_entry_destructor, unloads, is_loaded in *. simpl.
  rewrite IH. apply Z.eqb_eq in He. rewrite He.
  destruct (negb (plug e =? PLUGIN_INVALID_HANDLE)); reflexivity.
Qed.

Lemma not_in_use_nonneg_zero (es : list plugrack_entry_t) :
  existsb (fun e => refcount e >? 0) es = false ->
  Forall (fun e => 0 <= refcount e) es ->
  Forall (fun e => refcount e = 0) es.
Proof.
  intros Hex Hnn. induction Hnn as [|e es He _ IH]; [constructor|].
  simpl in Hex. apply orb_false_iff in Hex. destruct Hex as [H1 H2].
  constructor; [|auto].
  destruct (Z.gtb_spec (refcount e) 0); [discriminate|lia].
Qed.

(** X1: on a rack whose reference counts are all at least zero,
    plugrack_destroy always returns (the xassert of the entry destructor
    does not fire).  Either some entry is in use, and the rack is refused
    and left alone; or every count is zero, the status is SLURM_SUCCESS,
    the rack is gone, and plugin_unload was called once for every loaded
    entry, in rack order, and for nothing else. *)
Theorem destroy_with_counts_not_negative (rack : plugrack) :
  Forall (fun e => 0 <= refcount e) (entries rack) ->
  ((exists e, In e (entries rack) /\ refcount e > 0)
   /\ plugrack_destroy rack = Some ((SLURM_ERROR, Some rack), []))
  \/ (Forall (fun e => refcount e = 0) (entries rack)
      /\ plugrack_destroy rack
         = Some ((SLURM_SUCCESS, None), unloads is_loaded (entries rack))).
Proof.
  intros Hnn. unfold plugrack_destroy.
  destruct (existsb (fun e => refcount e >? 0) (entries rack)) eqn:Hex.
  - left. split; [|reflexivity].
    apply existsb_exists in Hex. destruct Hex as [e [Hin He]].
    exists e. split; [exact Hin|]. apply Z.gtb_lt in He. lia.
  - right. pose proof (not_in_use_nonneg_zero _ Hex Hnn) as Hz.
    split; [exact Hz|].
    rewrite (list_destroy_unreferenced _ Hz). unfold bind, ret.
    rewrite app_nil_r. reflexivity.
Qed.

Lemma destroy_with_counts_not_negative_witness :
  Forall (fun e => refcount e = 0) (entries rack_idle_unused)
  /\ plugrack_destroy rack_idle_unused
     = Some ((SLURM_SUCCESS, None), unloads is_loaded (entries rack_idle_unused)).
Proof.
  assert (Hnn : Forall (fun e => 0 <= refcount e) (entries rack_idle_unused)).
  { repeat constructor; discriminate. }
  destruct (destroy_with_counts_not_negative rack_idle_unused Hnn)
    as [[[e [Hin He]] _]|H]; [|exact H].
  exfalso. simpl in Hin.
  destruct Hin as [<-|[<-|[]]]; discriminate He.
Defined.

(** ** Requests and releases that find nothing *)

Lemma use_by_type_loop_miss (env : environment) (type : string)
    (es : list plugrack_entry_t) :
  Forall (fun e => strcmp type (full_type e) <> 0) es ->
  use_by_type_loop env type es = Some ((PLUGIN_INVALID_HANDLE, es), []).
Proof.
  induction 1 as [|e es He _ IH]; simpl; [reflexivity|].
  apply Z.eqb_neq in He. rewrite He, IH. reflexivity.
Qed.

(** X2: a request for a type that strcmp finds in no entry returns
    PLUGIN_INVALID_HANDLE, leaves the rack exactly as it was, and calls
    nothing outside the rack; so on an empty rack every request does. *)
Theorem use_by_type_of_unknown_type (env : environment) (rack : plugrack)
    (type : string) :
  Forall (fun e => strcmp type (full_type e) <> 0) (entries rack) ->
  plugrack_use_by_type env rack type = Some ((PLUGIN_INVALID_HANDLE, rack), []).
Proof.
  intros Hmiss. unfold plugrack_use_by_type.
  rewrite (use_by_type_loop_miss env type _ Hmiss).
  unfold bind, ret. simpl. rewrite set_entries_same. reflexivity.
Qed.

Lemma use_by_type_of_unknown_type_witness :
  plugrack_use_by_type (env_loader 4096) (munge_rack PLUGIN_INVALID_HANDLE 0)
    "sched/backfill"
  = Some ((PLUGIN_INVALID_HANDLE, munge_rack PLUGIN_INVALID_HANDLE 0), []).
Proof.
  apply use_by_type_of_unknown_type.
  repeat constructor. discriminate.
Defined.

Lemma finished_with_plugin_loop_unknown (p : plugin_handle_t)
    (es : list plugrack_entry_t) :
  Forall (fun x => plug x <> p) es ->
  finished_with_plugin_loop p es = Some ((SLURM_ERROR, es), []).
Proof.
  induction 1 as [|a l Ha _ IH]; simpl; [reflexivity|].
  apply Z.eqb_neq in Ha. rewrite Ha, IH. reflexivity.
Qed.

(** X3: releasing a handle that no entry carries returns SLURM_ERROR and
    leaves the rack exactly as it was. *)
Theorem release_of_unknown_handle (rack : plugrack) (p : plugin_handle_t) :
  Forall (fun e => plug e <> p) (entries rack) ->
  plugrack_finished_with_plugin rack p = Some ((SLURM_ERROR, rack), []).
Proof.
  intros Hmiss. unfold plugrack_finished_with_plugin.
  rewrite (finished_with_plugin_loop_unknown p _ Hmiss).
  unfold bind, ret. simpl. rewrite set_entries_same. reflexivity.
Qed.

Lemma release_of_unknown_handle_witness :
  plugrack_finished_with_plugin (munge_rack 4096 1) 8192
  = Some ((SLURM_ERROR, munge_rack 4096 1), []).
Proof.
  apply release_of_unknown_handle. repeat constructor. discriminate.
Defined.

Lemma finished_with_plugin_loop_keeps (p : plugin_handle_t) :
  forall es status es' t,
    finished_with_plugin_loop p es = Some ((status, es'), t) ->
    t = []
    /\ Forall2 (fun e e' => full_type e' = full_type e /\ fq_path e' = fq_path e
                            /\ plug e' = plug e) es es'.
Proof.
  induction es as [|e es IH]; intros status es' t H; simpl in H.
  - unfold ret in H. inversion H. split; [reflexivity|constructor].
  - destruct (plug e =? p).
    + apply bind_returns in H. destruct H as [n [t1 [t2 [H1 [H2 Ht]]]]].
      unfold ret in H2. inversion H2; subst.
      unfold int_decr in H1.
      destruct (INT_MIN <? refcount e); unfold ret in H1; inversion H1; subst.
      all: cycle 1.
      { split; [reflexivity|]. constructor; [simpl; auto|].
        clear. induction es; constructor; auto. }
      split; [reflexivity|]. constructor; [simpl; auto|].
      clear. induction es; constructor; auto.
    + apply bind_returns in H. destruct H as [[s0 es0] [t1 [t2 [H1 [H2 Ht]]]]].
      unfold ret in H2. inversion H2; subst. simpl.
      destruct (IH _ _ _ H1) as [-> HF]. split; [reflexivity|].
      constructor; auto.
Qed.

(** X4: a release never unloads anything: whatever handle is released,
    plugrack_finished_with_plugin calls nothing outside the rack, keeps
    the policy, and leaves every entry in place with its type, path and
    handle; only a count can change. *)
Theorem release_never_unloads (rack rack' : plugrack) (p : plugin_handle_t)
    (status : Z) (t : list event) :
  plugrack_finished_with_plugin rack p = Some ((status, rack'), t) ->
  t = []
  /\ same_policy rack rack'
  /\ Forall2 (fun e e' => full_type e' = full_type e /\ fq_path e' = fq_path e
                          /\ plug e' = plug e)
       (entries rack) (entries rack').
Proof.
  unfold plugrack_finished_with_plugin. intros H.
  apply bind_returns in H. destruct H as [[s0 es] [t1 [t2 [H1 [H2 Ht]]]]].
  unfold ret in H2. inversion H2; subst.
  destruct (finished_with_plugin_loop_keeps _ _ _ _ _ H1) as [-> HF].
  split; [reflexivity|]. split; [|exact HF].
  unfold same_policy. simpl. auto.
Qed.

Lemma release_never_unloads_witness :
  @nil event = []
  /\ same_policy (munge_rack 4096 1) (munge_rack 4096 0)
  /\ Forall2 (fun e e' => full_type e' = full_type e /\ fq_path e' = fq_path e
                          /\ plug e' = plug e)
       (entries (munge_rack 4096 1)) (entries (munge_rack 4096 0)).
Proof.
  apply (release_never_unloads (munge_rack 4096 1) (munge_rack 4096 0) 4096
           SLURM_SUCCESS []).
  reflexivity.
Defined.

(** ** The first entry of a type *)

Lemma use_by_type_loop_first (env : environment) (type : string)
    (l1 : list plugrack_entry_t) (e : plugrack_entry_t) (l2 : list plugrack_entry_t) :
  Forall (fun x => strcmp type (full_type x) <> 0) l1 ->
  strcmp type (full_type e) = 0 ->
  refcount e < INT_MAX ->
  let p := if plug e =? PLUGIN_INVALID_HANDLE
           then plugin_load_from_file env (fq_path e) else plug e in
  let n := if p =? PLUGIN_INVALID_HANDLE then refcount e + 1 else refcount e in
  use_by_type_loop env type (l1 ++ e :: l2)
  = Some ((p, l1 ++ mk_entry (full_type e) (fq_path e) p n :: l2),
          if plug e =? PLUGIN_INVALID_HANDLE then [EvLoad (fq_path e)] else []).
Proof.
  intros Hl1 He Hmax p n. induction Hl1 as [|a l1 Ha _ IH]; simpl.
  - apply Z.eqb_eq in He. rewrite He. simpl. subst n p.
    apply Z.ltb_lt in Hmax.
    destruct (plug e =? PLUGIN_INVALID_HANDLE) eqn:Hp; unfold_m; simpl.
    + destruct (plugin_load_from_file env (fq_path e) =? PLUGIN_INVALID_HANDLE);
        simpl; rewrite ?Hmax; reflexivity.
    + rewrite Hp. reflexivity.
  - apply Z.eqb_neq in Ha. rewrite Ha. simpl. rewrite IH.
    unfold bind, ret. simpl. rewrite app_nil_r. reflexivity.
Qed.



(** ** Sweeps *)

Lemma purge_entry_not_idle (e : plugrack_entry_t) : is_idle (purge_entry e) = false.
Proof.
  unfold purge_entry. destruct (is_idle e) eqn:Hi; [reflexivity|exact Hi].
Qed.

Lemma purge_entry_twice (e : plugrack_entry_t) :
  purge_entry (purge_entry e) = purge_entry e.
Proof.
  unfold purge_entry at 1. rewrite purge_entry_not_idle. reflexivity.
Qed.

(** X6: a second idle sweep finds nothing to do: plugrack_purge_idle
    always returns SLURM_SUCCESS, and run again on the rack it left it
    unloads nothing and changes nothing. *)
Theorem purge_idle_twice (rack : plugrack) :
  exists rack1 t,
    plugrack_purge_idle rack = Some ((SLURM_SUCCESS, rack1), t)
    /\ plugrack_purge_idle rack1 = Some ((SLURM_SUCCESS, rack1), []).
Proof.
  exists (set_entries rack (map purge_entry (entries rack))),
         (unloads is_idle (entries rack)).
  unfold plugrack_purge_idle. rewrite !purge_idle_loop_spec.
  unfold bind, ret, unloads. simpl. rewrite app_nil_r. split; [reflexivity|].
  assert (Hf : filter is_idle (map purge_entry (entries rack)) = []).
  { induction (entries rack) as [|e es IH]; simpl; [reflexivity|].
    rewrite purge_entry_not_idle. exact IH. }
  assert (Hm : map purge_entry (map purge_entry (entries rack))
               = map purge_entry (entries rack)).
  { rewrite map_map. apply map_ext. apply purge_entry_twice. }
  rewrite Hf, Hm. reflexivity.
Qed.

(** X7: a module handed out is taken away by the next sweep.  When the
    first entry of the requested type is not loaded and has no users, and
    its load succeeds with handle h, plugrack_use_by_type returns h and
    leaves the count at zero, and a plugrack_purge_idle that follows calls
    plugin_unload on h and puts the entry back as it was before the
    request. *)
Theorem use_then_purge_unloads_handed_out_module (env : environment)
    (rack : plugrack) (type : string) (l1 : list plugrack_entry_t)
    (e : plugrack_entry_t) (l2 : list plugrack_entry_t) :
  entries rack = l1 ++ e :: l2 ->
  Forall (fun x => strcmp type (full_type x) <> 0) l1 ->
  strcmp type (full_type e) = 0 ->
  plug e = PLUGIN_INVALID_HANDLE ->
  refcount e = 0 ->
  plugin_load_from_file env (fq_path e) <> PLUGIN_INVALID_HANDLE ->
  exists rack1 t,
    plugrack_use_by_type env rack type
    = Some ((plugin_load_from_file env (fq_path e), rack1), [EvLoad (fq_path e)])
    /\ plugrack_purge_idle rack1
       = Some ((SLURM_SUCCESS,
                set_entries rack (map purge_entry l1 ++ e :: map purge_entry l2)), t)
    /\ In (EvUnload (plugin_load_from_file env (fq_path e))) t.
Proof.
  intros Hes Hl1 He Hp Hn Hload.
  assert (Hmax : refcount e < INT_MAX) by (rewrite Hn; reflexivity).
  pose proof (use_by_type_loop_first env type l1 e l2 Hl1 He Hmax) as Hloop.
  cbv zeta in Hloop. rewrite Hp in Hloop. simpl in Hloop.
  apply Z.eqb_neq in Hload. rewrite Hload in Hloop.
  set (h := plugin_load_from_file env (fq_path e)) in *.
  set (e1 := mk_entry (full_type e) (fq_path e) h (refcount e)) in *.
  assert (Hidle : is_idle e1 = true).
  { unfold is_idle, e1. simpl. rewrite Hload, Hn. reflexivity. }
  assert (Hback : purge_entry e1 = e).
  { unfold purge_entry. rewrite Hidle. unfold set_plug, e1. simpl.
    rewrite <- Hp. destruct e. reflexivity. }
  exists (set_entries rack (l1 ++ e1 :: l2)),
         (unloads is_idle (l1 ++ e1 :: l2)).
  split; [|split].
  - unfold plugrack_use_by_type. rewrite Hes, Hloop. reflexivity.
  - unfold plugrack_purge_idle. simpl. rewrite purge_idle_loop_spec.
    unfold bind, ret, unloads. simpl. rewrite app_nil_r.
    rewrite map_app. simpl. rewrite Hback. reflexivity.
  - unfold unloads.
    change (EvUnload h) with ((fun x => EvUnload (plug x)) e1).
    apply in_map. apply filter_In. split; [|exact Hidle].
    apply in_or_app. right. left. reflexivity.
Qed.

Lemma use_then_purge_unloads_handed_out_module_witness :
  exists rack1 t,
    plugrack_use_by_type (env_loader 4096) (munge_rack PLUGIN_INVALID_HANDLE 0)
      "auth/munge"
    = Some ((4096, rack1), [EvLoad munge_path])
    /\ plugrack_purge_idle rack1
       = Some ((SLURM_SUCCESS, munge_rack PLUGIN_INVALID_HANDLE 0), t)
    /\ In (EvUnload 4096) t.
Proof.
  apply (use_then_purge_unloads_handed_out_module (env_loader 4096)
           (munge_rack PLUGIN_INVALID_HANDLE 0) "auth/munge"
           [] (munge_entry PLUGIN_INVALID_HANDLE 0) []).
  - reflexivity.
  - constructor.
  - reflexivity.
  - reflexivity.
  - reflexivity.
  - discriminate.
Defined.

Lemma load_all_loop_calls (env : environment) (es : list plugrack_entry_t) :
  load_all_loop env es
  = Some (tt, map (fun e => EvLoad (fq_path e))
                (filter (fun e => plug e =? PLUGIN_INVALID_HANDLE) es)).
Proof.
  induction es as [|e es IH]; simpl; [reflexivity|].
  rewrite IH. destruct (plug e =? PLUGIN_INVALID_HANDLE); reflexivity.
Qed.

(** X8: plugrack_load_all calls plugin_load_from_file once on the path of
    every entry that is not loaded, in rack order, and on no entry that is
    loaded; it returns SLURM_SUCCESS whatever the loads gave and hands the
    rack back as it got it. *)
Theorem load_all_calls_loader_per_unloaded_entry (env : environment)
    (rack : plugrack) :
  plugrack_load_all env rack
  = Some ((SLURM_SUCCESS, rack),
          map (fun e => EvLoad (fq_path e))
            (filter (fun e => negb (is_loaded e)) (entries rack))).
Proof.
  unfold plugrack_load_all. rewrite load_all_loop_calls.
  unfold bind, ret. rewrite app_nil_r. do 3 f_equal.
  apply filter_ext. intros e. unfold is_loaded. rewrite negb_involutive.
  reflexivity.
Qed.

(** ** Discovery *)

Lemma only_stats_stat_or_peek (t : list event) :
  only_stats t -> Forall stat_or_peek t.
Proof.
  unfold only_stats. intros H. eapply Forall_impl; [|exact H].
  intros ev [path ->]. exact I.
Qed.

(** X9: plugrack_add_plugin_file always returns, and it calls nothing but
    stat and plugin_peek: it never loads or unloads a module.  It answers
    SLURM_ERROR with the rack exactly as it was, or SLURM_SUCCESS with
    exactly one entry appended behind the old ones: the path given, the
    type plugin_peek reported for it, which passes the type filter, not
    loaded and without users. *)
Theorem add_plugin_file_outcome (env : environment) (rack : plugrack) (path : string) :
  exists status rack' t,
    plugrack_add_plugin_file env rack path = Some ((status, rack'), t)
    /\ Forall stat_or_peek t
    /\ ((status = SLURM_ERROR /\ rack' = rack)
        \/ (status = SLURM_SUCCESS
            /\ exists type,
                 plugin_peek env path type_len = Some type
                 /\ major_type_mismatch rack type = false
                 /\ rack' = set_entries rack
                              (entries rack
                               ++ [mk_entry type path PLUGIN_INVALID_HANDLE 0]))).
Proof.
  destruct (accept_paranoia_returns env rack path) as [b [t Hacc]].
  pose proof (only_stats_stat_or_peek t (accept_paranoia_only_stats _ _ _ _ _ Hacc))
    as Ht.
  unfold plugrack_add_plugin_file. rewrite Hacc.
  destruct b; simpl.
  - unfold do_plugin_peek, emit, ret. simpl.
    assert (Ht' : Forall stat_or_peek (t ++ [EvPeek path])).
    { apply Forall_app. split; [exact Ht|]. repeat constructor. }
    destruct (plugin_peek env path type_len) as [type|] eqn:Hpeek;
      [|eauto 10].
    destruct (major_type_mismatch rack type) eqn:Hmm; [eauto 10|].
    unfold plugrack_add_plugin_path, ret.
    do 3 eexists. split; [reflexivity|]. split; [exact Ht'|].
    right. split; [reflexivity|]. exists type. auto.
  - do 3 eexists. split; [reflexivity|]. rewrite app_nil_r. auto.
Qed.

(** X10: how plugrack_read_dir fails and what it does with nothing to
    find.  A directory that cannot be statted is refused with SLURM_ERROR
    before opendir is tried, also under the empty policy; so is a directory
    the node check with the directory flags rejects; a directory that
    cannot be opened is refused after the check; in all three the rack is
    as it was and nothing was peeked.  An accepted directory without
    entries gives SLURM_SUCCESS and the rack as it was. *)
Theorem read_dir_failures (env : environment) (rack : plugrack) (dir : string) :
  (stat env dir = None ->
   plugrack_read_dir env rack dir = Some ((SLURM_ERROR, rack), [EvStat dir]))
  /\ (node_decision (stat env dir) (uid rack)
        (truth (Z.land (paranoia rack) PLUGRACK_PARANOIA_DIR_OWN))
        (truth (Z.land (paranoia rack) PLUGRACK_PARANOIA_DIR_WRITABLE)) = false ->
      plugrack_read_dir env rack dir = Some ((SLURM_ERROR, rack), [EvStat dir]))
  /\ (node_decision (stat env dir) (uid rack)
        (truth (Z.land (paranoia rack) PLUGRACK_PARANOIA_DIR_OWN))
        (truth (Z.land (paranoia rack) PLUGRACK_PARANOIA_DIR_WRITABLE)) = true ->
      (opendir env dir = None ->
       plugrack_read_dir env rack dir
       = Some ((SLURM_ERROR, rack), [EvStat dir; EvOpendir dir]))
      /\ (opendir env dir = Some [] ->
          plugrack_read_dir env rack dir
          = Some ((SLURM_SUCCESS, rack), [EvStat dir; EvOpendir dir]))).
Proof.
  unfold plugrack_read_dir. rewrite accept_path_paranoia_decides.
  split; [|split].
  - intros ->. reflexivity.
  - intros ->. reflexivity.
  - intros ->. unfold sys_opendir, emit, ret, bind. simpl.
    split; intros ->; reflexivity.
Qed.

Lemma read_dir_failures_witness :
  plugrack_read_dir (env_loader 4096) plugrack_create "/nowhere"
  = Some ((SLURM_ERROR, plugrack_create), [EvStat "/nowhere"])
  /\ plugrack_read_dir env_auth rack_auth "/etc"
     = Some ((SLURM_ERROR, rack_auth), [EvStat "/etc"; EvOpendir "/etc"]).
Proof.
  split.
  - exact (proj1 (read_dir_failures (env_loader 4096) plugrack_create "/nowhere")
             eq_refl).
  - destruct (read_dir_failures env_auth rack_auth "/etc") as [_ [_ H]].
    exact (proj1 (H eq_refl) eq_refl).
Defined.

Lemma scan_one_same_policy (env : environment) (rack rack1 : plugrack)
    (dir d_name : string) :
  same_policy rack rack1 -> scan_one env rack1 dir d_name = scan_one env rack dir d_name.
Proof.
  intros [Hm [Hu Hp]]. unfold scan_one, scan_file_check, major_type_mismatch.
  rewrite Hm, Hu, Hp. reflexivity.
Qed.

Lemma read_dir_entry_appends (env : environment) (rack : plugrack) (dir d_name : string) :
  exists t,
    read_dir_entry env rack dir d_name
    = Some (set_entries rack (entries rack ++ scan_one env rack dir d_name), t)
    /\ Forall discovery_event t.
Proof.
  unfold read_dir_entry, scan_one, scan_file_check.
  generalize (dir ++ "/" ++ d_name)%string. intros path.
  unfold sys_stat, emit, ret. simpl.
  destruct (stat env path) as [st|];
    [|rewrite app_nil_r, set_entries_same; eexists; split;
      [reflexivity|repeat constructor]].
  destruct (S_ISREG (st_mode st)); simpl;
    [|rewrite app_nil_r, set_entries_same; eexists; split;
      [reflexivity|repeat constructor]].
  rewrite accept_path_paranoia_decides.
  destruct (node_decision (stat env dir) _ _ _); simpl;
    [|rewrite app_nil_r, set_entries_same; eexists; split;
      [reflexivity|repeat constructor]].
  unfold do_plugin_peek, emit, ret. simpl.
  destruct (plugin_peek env path type_len) as [type|];
    [|rewrite app_nil_r, set_entries_same; eexists; split;
      [reflexivity|repeat constructor]].
  destruct (major_type_mismatch rack type);
    [rewrite app_nil_r, set_entries_same; eexists; split;
      [reflexivity|repeat constructor]|].
  simpl. eexists. split; [reflexivity|repeat constructor].
Qed.

Lemma read_dir_loop_appends (env : environment) (rack : plugrack) (dir : string)
    (names : list string) :
  forall rack1,
    same_policy rack rack1 ->
    exists t,
      read_dir_loop env rack1 dir names
      = Some (set_entries rack1
                (entries rack1 ++ flat_map (scan_one env rack dir) names), t)
      /\ Forall discovery_event t.
Proof.
  induction names as [|d_name names IH]; intros rack1 Hpol; simpl.
  - rewrite app_nil_r, set_entries_same. exists []. split; [reflexivity|constructor].
  - destruct (read_dir_entry_appends env rack1 dir d_name) as [t1 [H1 Ht1]].
    rewrite (scan_one_same_policy env rack rack1 dir d_name Hpol) in H1.
    set (rack2 := set_entries rack1 (entries rack1 ++ scan_one env rack dir d_name)) in *.
    assert (Hpol2 : same_policy rack rack2).
    { destruct Hpol as [Hm [Hu Hp]]. unfold same_policy, rack2. simpl. auto. }
    destruct (IH rack2 Hpol2) as [t2 [H2 Ht2]].
    exists (t1 ++ t2). split; [|apply Forall_app; auto].
    rewrite H1. unfold bind. rewrite H2. unfold rack2, set_entries. simpl.
    rewrite <- app_assoc. reflexivity.
Qed.

Lemma scan_one_In (env : environment) (rack : plugrack) (dir d_name : string)
    (e : plugrack_entry_t) :
  In e (scan_one env rack dir d_name) <->
  exists type,
    scan_admits env rack dir d_name type
    /\ e = mk_entry type (dir ++ "/" ++ d_name) PLUGIN_INVALID_HANDLE 0.
Proof.
  unfold scan_one, scan_admits.
  generalize (dir ++ "/" ++ d_name)%string. intros path. split.
  - destruct (stat env path) as [st|]; [|intros []].
    destruct (S_ISREG (st_mode st)) eqn:Hreg; [|intros []].
    destruct (scan_file_check env rack dir) eqn:Hchk; [|intros []]. simpl.
    destruct (plugin_peek env path type_len) as [type|]; [|intros []].
    destruct (major_type_mismatch rack type) eqn:Hmm; [intros []|].
    intros [<-|[]]. exists type. repeat split; eauto.
  - intros [type [[[st [Hst Hreg]] [Hchk [Hpeek Hmm]]] ->]].
    rewrite Hst, Hreg, Hchk, Hpeek, Hmm. left. reflexivity.
Qed.

(** X11: what a scan registers.  When the directory is accepted and
    opened, plugrack_read_dir returns SLURM_SUCCESS, never loads or
    unloads a module, keeps the policy and the old entries, and appends
    behind them exactly the entries dir/name, for the names readdir
    yields, that are regular files, get past the loop's check and were
    peeked with a type that passes the type filter; each new entry carries
    that type and is not loaded and without users.  Every other name is
    skipped without failing the scan. *)
Theorem read_dir_registers (env : environment) (rack : plugrack) (dir : string)
    (names : list string) :
  node_decision (stat env dir) (uid rack)
    (truth (Z.land (paranoia rack) PLUGRACK_PARANOIA_DIR_OWN))
    (truth (Z.land (paranoia rack) PLUGRACK_PARANOIA_DIR_WRITABLE)) = true ->
  opendir env dir = Some names ->
  exists extra t,
    plugrack_read_dir env rack dir
    = Some ((SLURM_SUCCESS, set_entries rack (entries rack ++ extra)), t)
    /\ Forall discovery_event t
    /\ forall e,
         In e extra <->
         exists d_name type,
           In d_name names
           /\ scan_admits env rack dir d_name type
           /\ e = mk_entry type (dir ++ "/" ++ d_name) PLUGIN_INVALID_HANDLE 0.
Proof.
  intros Hdir Hopen.
  assert (Hpol : same_policy rack rack) by (unfold same_policy; auto).
  destruct (read_dir_loop_appends env rack dir names rack Hpol) as [t [Hloop Ht]].
  exists (flat_map (scan_one env rack dir) names). eexists.
  split; [|split].
  - unfold plugrack_read_dir. rewrite accept_path_paranoia_decides, Hdir. simpl.
    unfold sys_opendir, emit, ret. simpl. rewrite Hopen.
    unfold bind. rewrite Hloop. reflexivity.
  - repeat constructor. simpl. rewrite app_nil_r. exact Ht.
  - intros e. rewrite in_flat_map. split.
    + intros [d_name [Hin He]]. apply scan_one_In in He.
      destruct He as [type [Hadm ->]]. eauto.
    + intros [d_name [type [Hin [Hadm ->]]]]. exists d_name.
      split; [exact Hin|]. apply scan_one_In. eauto.
Qed.

Lemma read_dir_registers_witness :
  exists extra t,
    plugrack_read_dir env_auth rack_auth "/lib"
    = Some ((SLURM_SUCCESS, set_entries rack_auth (entries rack_auth ++ extra)), t)
    /\ Forall discovery_event t
    /\ forall e,
         In e extra <->
         exists d_name type,
           In d_name ["authxyz.so"; "auth_foo.so"; "sched.so"]
           /\ scan_admits env_auth rack_auth "/lib" d_name type
           /\ e = mk_entry type ("/lib" ++ "/" ++ d_name) PLUGIN_INVALID_HANDLE 0.
Proof.
  apply (read_dir_registers env_auth rack_auth "/lib"
           ["authxyz.so"; "auth_foo.so"; "sched.so"]); reflexivity.
Defined.

(** ** Namespace filter at work *)

(** C9: with the required major type unset or a C string, the filter is
    the plain prefix test on the declared type, with no delimiter asked
    for.  A file that passed the paranoia checks and whose type was peeked
    is appended by plugrack_add_plugin_file, with SLURM_SUCCESS, exactly
    when the test accepts the declared type, and otherwise refused with
    SLURM_ERROR and the rack as it was.  In one turn of the readdir loop a
    regular file that passed the check and was peeked is appended exactly
    when the test accepts its type and otherwise leaves the rack as it
    was.  plugrack_read_dir on a directory that was accepted and opened
    returns SLURM_SUCCESS with the old entries followed by exactly the
    entries of the candidates (regular, past the loop's check, peeked)
    whose declared type the test accepts; a candidate of another type is
    skipped without failing the scan. *)
Theorem namespace_filter_is_plain_prefix (env : environment) (rack : plugrack) :
  (forall m, major_type rack = Some m -> nul_free m) ->
  (forall path declared t,
     accept_paranoia env rack path = Some (true, t) ->
     plugin_peek env path type_len = Some declared ->
     plugrack_add_plugin_file env rack path
     = Some (if namespace_accepts (major_type rack) declared
             then (SLURM_SUCCESS,
                   set_entries rack
                     (entries rack
                      ++ [mk_entry declared path PLUGIN_INVALID_HANDLE 0]))
             else (SLURM_ERROR, rack),
             t ++ [EvPeek path]))
  /\ (forall dir d_name st declared,
        stat env (dir ++ "/" ++ d_name) = Some st ->
        S_ISREG (st_mode st) = true ->
        value (accept_path_paranoia env rack dir
                 (Z.land (paranoia rack) PLUGRACK_PARANOIA_FILE_OWN)
                 (Z.land (paranoia rack) PLUGRACK_PARANOIA_FILE_WRITABLE))
        = Some true ->
        plugin_peek env (dir ++ "/" ++ d_name) type_len = Some declared ->
        value (read_dir_entry env rack dir d_name)
        = Some (if namespace_accepts (major_type rack) declared
                then set_entries rack
                       (entries rack
                        ++ [mk_entry declared (dir ++ "/" ++ d_name)
                              PLUGIN_INVALID_HANDLE 0])
                else rack))
  /\ (forall dir names,
        value (accept_path_paranoia env rack dir
                 (Z.land (paranoia rack) PLUGRACK_PARANOIA_DIR_OWN)
                 (Z.land (paranoia rack) PLUGRACK_PARANOIA_DIR_WRITABLE))
        = Some true ->
        opendir env dir = Some names ->
        exists extra t,
          plugrack_read_dir env rack dir
          = Some ((SLURM_SUCCESS, set_entries rack (entries rack ++ extra)), t)
          /\ forall e,
               In e extra <->
               exists d_name declared,
                 In d_name names
                 /\ (exists st, stat env (dir ++ "/" ++ d_name) = Some st
                                /\ S_ISREG (st_mode st) = true)
                 /\ value (accept_path_paranoia env rack dir
                             (Z.land (paranoia rack) PLUGRACK_PARANOIA_FILE_OWN)
                             (Z.land (paranoia rack) PLUGRACK_PARANOIA_FILE_WRITABLE))
                    = Some true
                 /\ plugin_peek env (dir ++ "/" ++ d_name) type_len = Some declared
                 /\ namespace_accepts (major_type rack) declared = true
                 /\ e = mk_entry declared (dir ++ "/" ++ d_name)
                          PLUGIN_INVALID_HANDLE 0).
Proof.
  intros Hnul. split; [|split].
  - intros path declared t Hacc Hpeek.
    unfold plugrack_add_plugin_file. rewrite Hacc.
    unfold do_plugin_peek, emit, ret. simpl. rewrite Hpeek.
    rewrite (major_type_mismatch_prefix rack declared Hnul).
    destruct (namespace_accepts (major_type rack) declared); reflexivity.
  - intros dir d_name st declared. unfold read_dir_entry.
    generalize (dir ++ "/" ++ d_name)%string. intros path Hst Hreg Hacc Hpeek.
    rewrite accept_path_paranoia_decides in *. simpl in Hacc.
    inversion Hacc as [Hdec].
    unfold sys_stat, do_plugin_peek, emit, ret. simpl.
    rewrite Hst, Hreg, Hdec, Hpeek. simpl.
    rewrite (major_type_mismatch_prefix rack declared Hnul).
    destruct (namespace_accepts (major_type rack) declared); reflexivity.
  - intros dir names Hacc Hopen.
    rewrite accept_path_paranoia_decides in Hacc. simpl in Hacc.
    injection Hacc as Hdec.
    assert (Hpol : same_policy rack rack) by (unfold same_policy; auto).
    destruct (read_dir_loop_appends env rack dir names rack Hpol) as [t [Hloop _]].
    exists (flat_map (scan_one env rack dir) names). eexists. split.
    + unfold plugrack_read_dir. rewrite accept_path_paranoia_decides, Hdec. simpl.
      unfold sys_opendir, emit, ret. simpl. rewrite Hopen.
      unfold bind. rewrite Hloop. reflexivity.
    + assert (Hval : value (accept_path_paranoia env rack dir
                              (Z.land (paranoia rack) PLUGRACK_PARANOIA_FILE_OWN)
                              (Z.land (paranoia rack) PLUGRACK_PARANOIA_FILE_WRITABLE))
                     = Some (scan_file_check env rack dir)).
      { rewrite accept_path_paranoia_decides. reflexivity. }
      intros e. split.
      * intros He. apply in_flat_map in He. destruct He as [d_name [Hin He]].
        apply scan_one_In in He.
        destruct He as [declared [[Hreg [Hchk [Hpeek Hmm]]] ->]].
        exists d_name, declared. split; [exact Hin|]. split; [exact Hreg|].
        split; [rewrite Hval, Hchk; reflexivity|].
        split; [exact Hpeek|]. split; [|reflexivity].
        rewrite (major_type_mismatch_prefix rack declared Hnul) in Hmm.
        apply negb_false_iff in Hmm. exact Hmm.
      * intros [d_name [declared [Hin [Hreg [Hchk [Hpeek [Hns ->]]]]]]].
        apply in_flat_map. exists d_name. split; [exact Hin|]. apply scan_one_In.
        exists declared. split; [|reflexivity].
        split; [exact Hreg|].
        split; [rewrite Hval in Hchk; injection Hchk as Hchk; exact Hchk|].
        split; [exact Hpeek|].
        rewrite (major_type_mismatch_prefix rack declared Hnul), Hns. reflexivity.
Qed.

Lemma namespace_filter_is_plain_prefix_witness :
  plugrack_add_plugin_file env_auth rack_auth "/lib/authxyz.so"
  = Some ((SLURM_SUCCESS,
           set_entries rack_auth
             [mk_entry "authxyz" "/lib/authxyz.so" PLUGIN_INVALID_HANDLE 0]),
          [EvPeek "/lib/authxyz.so"])
  /\ plugrack_add_plugin_file env_auth rack_auth "/lib/auth_foo.so"
     = Some ((SLURM_SUCCESS,
              set_entries rack_auth
                [mk_entry "auth/foo" "/lib/auth_foo.so" PLUGIN_INVALID_HANDLE 0]),
             [EvPeek "/lib/auth_foo.so"])
  /\ plugrack_add_plugin_file env_auth rack_auth "/lib/sched.so"
     = Some ((SLURM_ERROR, rack_auth), [EvPeek "/lib/sched.so"])
  /\ value (read_dir_entry env_auth rack_auth "/lib" "authxyz.so")
     = Some (set_entries rack_auth
               [mk_entry "authxyz" "/lib/authxyz.so" PLUGIN_INVALID_HANDLE 0])
  /\ value (read_dir_entry env_auth rack_auth "/lib" "sched.so") = Some rack_auth
  /\ exists extra t,
       plugrack_read_dir env_auth rack_auth "/lib"
       = Some ((SLURM_SUCCESS, set_entries rack_auth (entries rack_auth ++ extra)), t)
       /\ In (mk_entry "authxyz" "/lib/authxyz.so" PLUGIN_INVALID_HANDLE 0) extra
       /\ In (mk_entry "auth/foo" "/lib/auth_foo.so" PLUGIN_INVALID_HANDLE 0) extra
       /\ ~ In (mk_entry "sched/backfill" "/lib/sched.so" PLUGIN_INVALID_HANDLE 0)
            extra.
Proof.
  assert (Hnul : forall m, major_type rack_auth = Some m -> nul_free m).
  { intros m H. inversion H. simpl. repeat split; discriminate. }
  destruct (namespace_filter_is_plain_prefix env_auth rack_auth Hnul)
    as [Hfile [Hentry Hscan]].
  split; [exact (Hfile "/lib/authxyz.so" "authxyz" [] eq_refl eq_refl)|].
  split; [exact (Hfile "/lib/auth_foo.so" "auth/foo" [] eq_refl eq_refl)|].
  split; [exact (Hfile "/lib/sched.so" "sched/backfill" [] eq_refl eq_refl)|].
  split; [exact (Hentry "/lib" "authxyz.so" (mk_stat 0 33188) "authxyz"
                   eq_refl eq_refl eq_refl eq_refl)|].
  split; [exact (Hentry "/lib" "sched.so" (mk_stat 0 33188) "sched/backfill"
                   eq_refl eq_refl eq_refl eq_refl)|].
  destruct (Hscan "/lib" ["authxyz.so"; "auth_foo.so"; "sched.so"] eq_refl eq_refl)
    as [extra [t [Hrun Hin]]].
  exists extra, t. split; [exact Hrun|]. split; [|split].
  - apply Hin. exists "authxyz.so", "authxyz".
    split; [left; reflexivity|]. split; [exists (mk_stat 0 33188); split; reflexivity|].
    repeat split; reflexivity.
  - apply Hin. exists "auth_foo.so", "auth/foo".
    split; [right; left; reflexivity|].
    split; [exists (mk_stat 0 33188); split; reflexivity|].
    repeat split; reflexivity.
  - intros H. apply Hin in H.
    destruct H as [d_name [declared [_ [_ [_ [_ [Hns He]]]]]]].
    inversion He; subst. discriminate Hns.
Defined.

(** ** Paths and policies *)

Lemma accept_paranoia_dir_file (env : environment) (rack : plugrack)
    (dir file : string) :
  paranoia rack <> 0 ->
  dir <> "" ->
  ~ In "/"%char (list_ascii_of_string file) ->
  value (accept_paranoia env rack (dir ++ "/" ++ file))
  = Some (node_decision (stat env (dir ++ "/" ++ file)) (uid rack)
            (truth (Z.land (paranoia rack) PLUGRACK_PARANOIA_FILE_OWN))
            (truth (Z.land (paranoia rack) PLUGRACK_PARANOIA_FILE_WRITABLE))
          && node_decision (stat env dir) (uid rack)
               (truth (Z.land (paranoia rack) PLUGRACK_PARANOIA_DIR_OWN))
               (truth (Z.land (paranoia rack) PLUGRACK_PARANOIA_DIR_WRITABLE))).
Proof.
  intros Hne Hdir Hslash. unfold accept_paranoia.
  apply Z.eqb_neq in Hne. rewrite Hne.
  change (dir ++ "/" ++ file)%string with (dir ++ String "/" file)%string.
  rewrite accept_path_paranoia_decides.
  destruct (node_decision (stat env (dir ++ String "/" file)) _ _ _); simpl;
    [|reflexivity].
  rewrite (strrchr_last _ dir file Hslash).
  rewrite (chop_last_element_dir _ dir file Hdir).
  rewrite accept_path_paranoia_decides. reflexivity.
Qed.

(** X12: a file directly under the root.  For a path /file whose only
    '/' is its first character, accept_paranoia under a policy that is not
    empty does not cut the path: the directory flags are checked on the
    file itself, and the root directory is never statted.  The path is
    accepted exactly when its own node passes the check with the file
    flags and the check with the directory flags. *)
Theorem accept_paranoia_root_level_file (env : environment) (rack : plugrack)
    (file : string) :
  paranoia rack <> 0 ->
  ~ In "/"%char (list_ascii_of_string file) ->
  exists t,
    accept_paranoia env rack ("/" ++ file)
    = Some (node_decision (stat env ("/" ++ file)) (uid rack)
              (truth (Z.land (paranoia rack) PLUGRACK_PARANOIA_FILE_OWN))
              (truth (Z.land (paranoia rack) PLUGRACK_PARANOIA_FILE_WRITABLE))
            && node_decision (stat env ("/" ++ file)) (uid rack)
                 (truth (Z.land (paranoia rack) PLUGRACK_PARANOIA_DIR_OWN))
                 (truth (Z.land (paranoia rack) PLUGRACK_PARANOIA_DIR_WRITABLE)),
            t)
    /\ Forall (fun ev => ev = EvStat ("/" ++ file)) t.
Proof.
  intros Hne Hslash. unfold accept_paranoia.
  apply Z.eqb_neq in Hne. rewrite Hne.
  change ("/" ++ file)%string with (String "/" file).
  assert (Hlast : strrchr (String "/" file) "/" = Some O).
  { simpl. rewrite (strrchr_absent _ _ Hslash). reflexivity. }
  rewrite accept_path_paranoia_decides.
  destruct (node_decision (stat env (String "/" file)) _ _ _) eqn:Hfile;
    unfold bind; cbn [negb andb].
  - rewrite Hlast. unfold chop_last_element.
    rewrite accept_path_paranoia_decides. eexists. split; [reflexivity|].
    repeat constructor.
  - eexists. split; [reflexivity|]. repeat constructor.
Qed.

Lemma accept_paranoia_root_level_file_witness :
  exists t,
    accept_paranoia env_auth rack_scan ("/" ++ "plugin.so")
    = Some (node_decision (stat env_auth ("/" ++ "plugin.so")) (uid rack_scan)
              (truth (Z.land (paranoia rack_scan) PLUGRACK_PARANOIA_FILE_OWN))
              (truth (Z.land (paranoia rack_scan) PLUGRACK_PARANOIA_FILE_WRITABLE))
            && node_decision (stat env_auth ("/" ++ "plugin.so")) (uid rack_scan)
                 (truth (Z.land (paranoia rack_scan) PLUGRACK_PARANOIA_DIR_OWN))
                 (truth (Z.land (paranoia rack_scan) PLUGRACK_PARANOIA_DIR_WRITABLE)),
            t)
    /\ Forall (fun ev => ev = EvStat ("/" ++ "plugin.so")) t.
Proof.
  apply (accept_paranoia_root_level_file env_auth rack_scan "plugin.so").
  - discriminate.
  - simpl. intros H. repeat (destruct H as [H|H]; [discriminate|]). exact H.
Defined.

(** X13: plugrack_open_plugin leaves nothing loaded that it does not hand
    out.  With the major type unset or a C string: when the load fails it
    returns PLUGIN_INVALID_HANDLE after the one loader call; when the
    module's declared type has the major type as a prefix it returns the
    live handle; otherwise it unloads the module again and returns
    PLUGIN_INVALID_HANDLE. *)
Theorem open_plugin_unloads_wrong_type (env : environment)
    (plugin_get_type : plugin_handle_t -> string) (rack : plugrack) (path : string) :
  (forall m, major_type rack = Some m -> nul_free m) ->
  plugrack_open_plugin env plugin_get_type rack path
  = Some (if plugin_load_from_file env path =? PLUGIN_INVALID_HANDLE
          then (PLUGIN_INVALID_HANDLE, [EvLoad path])
          else if namespace_accepts (major_type rack)
                    (plugin_get_type (plugin_load_from_file env path))
          then (plugin_load_from_file env path, [EvLoad path])
          else (PLUGIN_INVALID_HANDLE,
                [EvLoad path; EvUnload (plugin_load_from_file env path)])).
Proof.
  intros Hnul. unfold plugrack_open_plugin, do_plugin_load_from_file, emit, ret.
  simpl.
  destruct (plugin_load_from_file env path =? PLUGIN_INVALID_HANDLE);
    [reflexivity|].
  unfold namespace_accepts.
  destruct (major_type rack) as [m|] eqn:Hm; [|reflexivity].
  rewrite (strncmp_is_prefix m (Hnul m eq_refl)).
  destruct (String.prefix m _); reflexivity.
Qed.

Lemma open_plugin_unloads_wrong_type_witness :
  plugrack_open_plugin (env_loader 4096) (fun _ => "sched/backfill") rack_auth
    "/lib/sched.so"
  = Some (PLUGIN_INVALID_HANDLE, [EvLoad "/lib/sched.so"; EvUnload 4096]).
Proof.
  apply (open_plugin_unloads_wrong_type (env_loader 4096)
           (fun _ => "sched/backfill") rack_auth "/lib/sched.so").
  intros m H. inversion H. simpl. repeat split; discriminate.
Defined.

Lemma truth_low_byte (flags k : Z) :
  0 <= k < 8 ->
  truth (Z.land (flags mod 256) (2 ^ k)) = truth (Z.land flags (2 ^ k)).
Proof.
  intros Hk. unfold truth. rewrite !land_bit_zero by lia.
  change 256 with (2 ^ 8). rewrite Z.mod_pow2_bits_low by lia. reflexivity.
Qed.

Lemma truth_nonzero (x : Z) : x <> 0 -> truth x = true.
Proof.
  intros H. unfold truth. apply Z.eqb_neq in H. rewrite H. reflexivity.
Qed.

Lemma land_nonzero_l (x y : Z) : Z.land x y <> 0 -> x <> 0.
Proof.
  intros H ->. apply H. apply Z.land_0_l.
Qed.

Lemma truth_true_nonzero (x y : Z) : truth (Z.land x y) = true -> x <> 0.
Proof.
  unfold truth. intros H. apply negb_true_iff, Z.eqb_neq in H.
  eapply land_nonzero_l; eauto.
Qed.

Lemma add_plugin_file_rejected (env : environment) (rack : plugrack) (path : string) :
  value (accept_paranoia env rack path) = Some false ->
  exists t,
    plugrack_add_plugin_file env rack path = Some ((SLURM_ERROR, rack), t)
    /\ only_stats t.
Proof.
  intros Hval.
  destruct (add_plugin_file_checks_before_peek env rack path)
    as [[t [Hacc [Hst Hrun]]]|[t [s [r [Hacc _]]]]].
  - eauto.
  - rewrite Hacc in Hval. discriminate.
Qed.

(** X14: the file-level policy at work.  After plugrack_set_paranoia with
    the file-ownership bit and uid u, plugrack_add_plugin_file refuses a
    file that stat shows owned by another user; after it with the
    file-writability bit, it refuses a file that is group- or
    other-writable.  Either way it answers SLURM_ERROR, registers nothing
    and calls nothing but stat, so the loader never sees the file. *)
Theorem file_policy_refuses (env : environment) (rack : plugrack)
    (flags u : Z) (path : string) (st : stat_t) :
  stat env path = Some st ->
  (Z.land flags PLUGRACK_PARANOIA_FILE_OWN <> 0 /\ st_uid st <> u)
  \/ (Z.land flags PLUGRACK_PARANOIA_FILE_WRITABLE <> 0
      /\ (Z.testbit (st_mode st) 4 = true \/ Z.testbit (st_mode st) 1 = true)) ->
  exists rack' t,
    plugrack_set_paranoia rack flags u = Some ((SLURM_SUCCESS, rack'), [])
    /\ plugrack_add_plugin_file env rack' path = Some ((SLURM_ERROR, rack'), t)
    /\ only_stats t.
Proof.
  intros Hst Hbad.
  assert (Hflags : flags <> 0).
  { destruct Hbad as [[H _]|[H _]]; eapply land_nonzero_l; eauto. }
  eexists. 
  assert (Hrej : value (accept_paranoia env
                   (mk_rack (entries rack) (major_type rack)
                      (if negb (flags =? 0) then u else uid rack) (flags mod 256))
                   path) = Some false).
  { unfold accept_paranoia. simpl.
    change PLUGRACK_PARANOIA_FILE_OWN with (2 ^ 2) in *.
    change PLUGRACK_PARANOIA_FILE_WRITABLE with (2 ^ 3) in *.
    assert (Hmask : (flags mod 256 =? 0) = false).
    { apply Z.eqb_neq.
      destruct Hbad as [[H _]|[H _]]; apply truth_nonzero in H;
        rewrite <- truth_low_byte in H by lia;
        eapply truth_true_nonzero; eauto. }
    assert (Hdec : node_decision (Some st) (if negb (flags =? 0) then u else uid rack)
                     (truth (Z.land (flags mod 256) (2 ^ 2)))
                     (truth (Z.land (flags mod 256) (2 ^ 3))) = false).
    { rewrite !truth_low_byte by lia.
      apply Z.eqb_neq in Hflags. rewrite Hflags. cbn [negb]. unfold node_decision.
      destruct Hbad as [[Hown Huid]|[Hwr Hmode]].
      - rewrite (truth_nonzero _ Hown). apply Z.eqb_neq in Huid. rewrite Huid.
        reflexivity.
      - rewrite (truth_nonzero _ Hwr).
        destruct (truth (Z.land flags (2 ^ 2)) && negb (st_uid st =? u));
          [reflexivity|].
        destruct Hmode as [-> | ->]; cbn [andb orb]; rewrite ?orb_true_r;
          reflexivity. }
    rewrite Hmask, accept_path_paranoia_decides, Hst. cbn [uid].
    rewrite Hdec. reflexivity. }
  destruct (add_plugin_file_rejected _ _ _ Hrej) as [t [Hrun Ht]].
  exists t. split; [reflexivity|]. split; assumption.
Qed.

Lemma file_policy_refuses_witness :
  exists rack' t,
    plugrack_set_paranoia plugrack_create PLUGRACK_PARANOIA_FILE_OWN 500
    = Some ((SLURM_SUCCESS, rack'), [])
    /\ plugrack_add_plugin_file env_scan rack' "/opt/plugins/evil.so"
       = Some ((SLURM_ERROR, rack'), t)
    /\ only_stats t.
Proof.
  apply (file_policy_refuses env_scan plugrack_create PLUGRACK_PARANOIA_FILE_OWN 500
           "/opt/plugins/evil.so" (mk_stat 501 33188)).
  - reflexivity.
  - left. split; discriminate.
Defined.

Lemma node_decision_bad (st : stat_t) (u : Z) (check_owner check_writable : bool) :
  (check_owner = true /\ st_uid st <> u)
  \/ (check_writable = true
      /\ (Z.testbit (st_mode st) 4 = true \/ Z.testbit (st_mode st) 1 = true)) ->
  node_decision (Some st) u check_owner check_writable = false.
Proof.
  unfold node_decision. intros [[-> Huid]|[-> Hmode]].
  - apply Z.eqb_neq in Huid. rewrite Huid. reflexivity.
  - destruct (check_owner && negb (st_uid st =? u)); [reflexivity|].
    destruct Hmode as [-> | ->]; cbn [andb orb]; rewrite ?orb_true_r; reflexivity.
Qed.

(** X15: the directory-level policy at work.  For a path dir/file, with
    dir not empty and no '/' in file: after plugrack_set_paranoia with the
    directory-ownership bit and uid u, plugrack_add_plugin_file refuses
    the file when stat shows dir owned by another user; after it with the
    directory-writability bit, it refuses the file when dir is group- or
    other-writable; whatever the file itself looks like.  It answers
    SLURM_ERROR, registers nothing and calls nothing but stat. *)
Theorem directory_policy_refuses (env : environment) (rack : plugrack)
    (flags u : Z) (dir file : string) (sd : stat_t) :
  dir <> "" ->
  ~ In "/"%char (list_ascii_of_string file) ->
  stat env dir = Some sd ->
  (Z.land flags PLUGRACK_PARANOIA_DIR_OWN <> 0 /\ st_uid sd <> u)
  \/ (Z.land flags PLUGRACK_PARANOIA_DIR_WRITABLE <> 0
      /\ (Z.testbit (st_mode sd) 4 = true \/ Z.testbit (st_mode sd) 1 = true)) ->
  exists rack' t,
    plugrack_set_paranoia rack flags u = Some ((SLURM_SUCCESS, rack'), [])
    /\ plugrack_add_plugin_file env rack' (dir ++ "/" ++ file)
       = Some ((SLURM_ERROR, rack'), t)
    /\ only_stats t.
Proof.
  intros Hdir Hslash Hst Hbad.
  assert (Hflags : flags <> 0).
  { destruct Hbad as [[H _]|[H _]]; eapply land_nonzero_l; eauto. }
  set (rack' := mk_rack (entries rack) (major_type rack)
                  (if negb (flags =? 0) then u else uid rack) (flags mod 256)).
  change PLUGRACK_PARANOIA_DIR_OWN with (2 ^ 0) in Hbad.
  change PLUGRACK_PARANOIA_DIR_WRITABLE with (2 ^ 1) in Hbad.
  assert (Hmask : paranoia rack' <> 0).
  { unfold rack'. cbn [paranoia].
    destruct Hbad as [[H _]|[H _]]; apply truth_nonzero in H;
      rewrite <- truth_low_byte in H by lia;
      eapply truth_true_nonzero; eauto. }
  assert (Hrej : value (accept_paranoia env rack' (dir ++ "/" ++ file)) = Some false).
  { rewrite (accept_paranoia_dir_file env rack' dir file Hmask Hdir Hslash).
    unfold rack' at 3 4 5 6. cbn [uid paranoia].
    change PLUGRACK_PARANOIA_DIR_OWN with (2 ^ 0).
    change PLUGRACK_PARANOIA_DIR_WRITABLE with (2 ^ 1).
    rewrite !truth_low_byte by lia. rewrite Hst.
    apply Z.eqb_neq in Hflags. rewrite Hflags. cbn [negb].
    rewrite node_decision_bad; [apply f_equal, andb_false_r|].
    destruct Hbad as [[H1 H2]|[H1 H2]]; [left|right];
      (split; [apply truth_nonzero; exact H1|exact H2]). }
  destruct (add_plugin_file_rejected _ _ _ Hrej) as [t [Hrun Ht]].
  exists rack', t. split; [reflexivity|]. split; assumption.
Qed.

Lemma directory_policy_refuses_witness :
  exists rack' t,
    plugrack_set_paranoia plugrack_create PLUGRACK_PARANOIA_DIR_OWN 0
    = Some ((SLURM_SUCCESS, rack'), [])
    /\ plugrack_add_plugin_file env_scan rack' ("/opt/plugins" ++ "/" ++ "evil.so")
       = Some ((SLURM_ERROR, rack'), t)
    /\ only_stats t.
Proof.
  apply (directory_policy_refuses env_scan plugrack_create PLUGRACK_PARANOIA_DIR_OWN 0
           "/opt/plugins" "evil.so" (mk_stat 500 16877)).
  - discriminate.
  - simpl. intros H. repeat (destruct H as [H|H]; [discriminate|]). exact H.
  - reflexivity.
  - left. split; discriminate.
Defined.

(** X16: plugrack_set_paranoia keeps the low byte of the flags.  It
    always succeeds and leaves the entries and the major type alone; the
    policy it stores is flags modulo 256, and the uid is replaced exactly
    when flags is not zero.  So flags whose low eight bits are all zero
    leave a rack that accepts every path without a look at the file
    system, also when the flags word itself is not zero. *)
Theorem set_paranoia_keeps_low_byte (rack : plugrack) (flags u : Z) :
  exists rack',
    plugrack_set_paranoia rack flags u = Some ((SLURM_SUCCESS, rack'), [])
    /\ entries rack' = entries rack
    /\ major_type rack' = major_type rack
    /\ paranoia rack' = flags mod 256
    /\ uid rack' = (if flags =? 0 then uid rack else u)
    /\ (forall k, 0 <= k < 8 -> Z.testbit (paranoia rack') k = Z.testbit flags k)
    /\ (flags mod 256 = 0 ->
        forall env path, accept_paranoia env rack' path = Some (true, [])).
Proof.
  eexists. split; [reflexivity|]. cbn [entries major_type paranoia uid].
  repeat split.
  - destruct (flags =? 0); reflexivity.
  - intros k Hk. change 256 with (2 ^ 8). apply Z.mod_pow2_bits_low. lia.
  - intros H0 env path. unfold accept_paranoia. cbn [paranoia]. rewrite H0.
    reflexivity.
Qed.

Lemma set_paranoia_keeps_low_byte_witness :
  exists rack',
    plugrack_set_paranoia rack_scan 256 0 = Some ((SLURM_SUCCESS, rack'), [])
    /\ uid rack' = 0
    /\ plugrack_add_plugin_file env_scan rack' "/opt/plugins/evil.so"
       = Some ((SLURM_SUCCESS,
                set_entries rack'
                  [mk_entry "auth/evil" "/opt/plugins/evil.so" PLUGIN_INVALID_HANDLE 0]),
               [EvPeek "/opt/plugins/evil.so"]).
Proof.
  destruct (set_paranoia_keeps_low_byte rack_scan 256 0)
    as [rack' [Hset [He [Hm [Hp [Hu [_ Hacc]]]]]]].
  exists rack'. split; [exact Hset|]. split; [exact Hu|].
  unfold plugrack_add_plugin_file.
  rewrite (Hacc eq_refl env_scan "/opt/plugins/evil.so").
  unfold major_type_mismatch. rewrite Hm.
  unfold plugrack_add_plugin_path. rewrite He. reflexivity.
Defined.

(** ** What no operation does *)

Lemma Forall2_identity_refl (es : list plugrack_entry_t) :
  Forall2 (fun e e' => full_type e' = full_type e /\ fq_path e' = fq_path e) es es.
Proof.
  induction es; constructor; auto.
Qed.

Lemma use_by_type_loop_identity (env : environment) (type : string) :
  forall es h es' t,
    use_by_type_loop env type es = Some ((h, es'), t) ->
    Forall2 (fun e e' => full_type e' = full_type e /\ fq_path e' = fq_path e) es es'.
Proof.
  induction es as [|e es IH]; intros h es' t H; simpl in H.
  - unfold ret in H. inversion H. constructor.
  - destruct (negb (strcmp type (full_type e) =? 0)).
    + apply bind_returns in H. destruct H as [[h0 es0] [t1 [t2 [H1 [H2 _]]]]].
      unfold ret in H2. inversion H2; subst. simpl.
      constructor; [auto|]. eapply IH; eauto.
    + apply bind_returns in H. destruct H as [p [t1 [t2 [_ [H2 _]]]]].
      apply bind_returns in H2. destruct H2 as [n [t3 [t4 [_ [H4 _]]]]].
      unfold ret in H4. inversion H4; subst.
      constructor; [simpl; auto|apply Forall2_identity_refl].
Qed.

Lemma read_dir_appends (env : environment) (rack : plugrack) (dir : string) :
  exists status extra t,
    plugrack_read_dir env rack dir
    = Some ((status, set_entries rack (entries rack ++ extra)), t).
Proof.
  unfold plugrack_read_dir. rewrite accept_path_paranoia_decides.
  destruct (node_decision (stat env dir) _ _ _); simpl.
  - unfold sys_opendir, emit, ret. simpl.
    destruct (opendir env dir) as [names|].
    + assert (Hpol : same_policy rack rack) by (unfold same_policy; auto).
      destruct (read_dir_loop_appends env rack dir names rack Hpol) as [t [H _]].
      unfold bind. rewrite H. eauto.
    + exists SLURM_ERROR, []. rewrite app_nil_r, set_entries_same. eauto.
  - exists SLURM_ERROR, []. rewrite app_nil_r, set_entries_same.
    unfold ret. eauto.
Qed.

(** What one public operation leaves of a rack that lives on: the old
    entries in place under their names, possibly followed by new ones, and
    the policy unless the operation is one that sets it. *)
Lemma perform_effect (env : environment) (op : operation)
    (rack rack' : plugrack) (t : list event) :
  perform env op rack = Some (Some rack', t) ->
  (exists kept extra,
     entries rack' = kept ++ extra
     /\ Forall2 (fun e e' => full_type e' = full_type e /\ fq_path e' = fq_path e)
          (entries rack) kept)
  /\ ((forall type, op <> OpSetMajorType type) ->
      (forall flags new_uid, op <> OpSetParanoia flags new_uid) ->
      same_policy rack rack').
Proof.
  intros H. unfold same_policy. destruct op; simpl in H.
  - unfold plugrack_set_major_type, bind, ret in H. inversion H; subst. simpl.
    split; [|intros Hm _; exfalso; eapply Hm; reflexivity].
    exists (entries rack), []. rewrite app_nil_r.
    auto using Forall2_identity_refl.
  - unfold plugrack_set_paranoia, bind, ret in H. inversion H; subst. simpl.
    split; [|intros _ Hp; exfalso; eapply Hp; reflexivity].
    exists (entries rack), []. rewrite app_nil_r.
    auto using Forall2_identity_refl.
  - destruct (add_plugin_file_effect env rack path) as [st [r [t0 [Heq Hr]]]].
    rewrite Heq in H. unfold bind, ret in H. simpl in H. inversion H; subst.
    destruct Hr as [->|[type ->]]; simpl; (split; [|auto]).
    + exists (entries rack), []. rewrite app_nil_r.
      auto using Forall2_identity_refl.
    + eexists (entries rack), _. split; [reflexivity|].
      apply Forall2_identity_refl.
  - destruct (read_dir_appends env rack dir) as [st [extra [t0 Heq]]].
    rewrite Heq in H. unfold bind, ret in H. simpl in H. inversion H; subst.
    simpl. split; [|auto].
    exists (entries rack), extra. auto using Forall2_identity_refl.
  - unfold plugrack_purge_idle in H. rewrite purge_idle_loop_spec in H.
    unfold bind, ret in H. simpl in H. inversion H; subst. simpl.
    split; [|auto].
    exists (map purge_entry (entries rack)), []. rewrite app_nil_r.
    split; [reflexivity|].
    induction (entries rack) as [|e es IH]; simpl; constructor; auto.
    unfold purge_entry. destruct (is_idle e); simpl; auto.
  - destruct (load_all_keeps_rack env rack) as [t0 Heq].
    rewrite Heq in H. unfold bind, ret in H. simpl in H. inversion H; subst.
    split; [|auto].
    exists (entries rack'), []. rewrite app_nil_r.
    auto using Forall2_identity_refl.
  - apply bind_returns in H. destruct H as [[h r] [t1 [t2 [H1 [H2 _]]]]].
    unfold ret in H2. inversion H2; subst. clear H2.
    unfold plugrack_use_by_type in H1.
    apply bind_returns in H1. destruct H1 as [[h0 es] [t3 [t4 [H3 [H4 _]]]]].
    unfold ret in H4. inversion H4; subst. simpl. split; [|auto].
    exists es, []. rewrite app_nil_r. split; [reflexivity|].
    eapply use_by_type_loop_identity; eauto.
  - apply bind_returns in H. destruct H as [[st r] [t1 [t2 [H1 [H2 _]]]]].
    unfold ret in H2. inversion H2; subst. clear H2.
    unfold plugrack_finished_with_plugin in H1.
    apply bind_returns in H1. destruct H1 as [[st0 es] [t3 [t4 [H3 [H4 _]]]]].
    unfold ret in H4. inversion H4; subst. simpl. split; [|auto].
    exists es, []. rewrite app_nil_r. split; [reflexivity|].
    destruct (finished_with_plugin_loop_keeps _ _ _ _ _ H3) as [_ HF].
    eapply Forall2_impl; [|exact HF]. simpl. intros a b [Ha [Hb _]]. auto.
  - unfold plugrack_destroy in H.
    destruct (existsb (fun e => refcount e >? 0) (entries rack)).
    + unfold bind, ret in H. simpl in H. inversion H; subst. split; [|auto].
      exists (entries rack'), []. rewrite app_nil_r.
      auto using Forall2_identity_refl.
    + apply bind_returns in H. destruct H as [[st r] [t1 [t2 [H1 [H2 _]]]]].
      apply bind_returns in H1. destruct H1 as [u [t3 [t4 [_ [H4 _]]]]].
      unfold ret in H2, H4. inversion H4; subst. inversion H2.
Qed.

(** X17: entries are for life.  Whatever public operation a client
    performs on a rack, in whatever world, if the rack lives on then every
    entry it held is still there, at the same position, with the same type
    and the same path: nothing but the destruction of the whole rack
    removes, reorders or renames an entry. *)
Theorem entries_keep_place_and_name (env : environment) (op : operation)
    (rack rack' : plugrack) (t : list event) :
  perform env op rack = Some (Some rack', t) ->
  forall i e,
    nth_error (entries rack) i = Some e ->
    exists e',
      nth_error (entries rack') i = Some e'
      /\ full_type e' = full_type e /\ fq_path e' = fq_path e.
Proof.
  intros H i e Hi.
  destruct (perform_effect env op rack rack' t H) as [[kept [extra [-> Hk]]] _].
  eapply Forall2_nth_error_app in Hk; eauto.
Qed.

Lemma entries_keep_place_and_name_witness :
  exists e',
    nth_error (entries (munge_rack PLUGIN_INVALID_HANDLE 1)) 0 = Some e'
    /\ full_type e' = full_type (munge_entry PLUGIN_INVALID_HANDLE 0)
    /\ fq_path e' = fq_path (munge_entry PLUGIN_INVALID_HANDLE 0).
Proof.
  apply (entries_keep_place_and_name (env_loader PLUGIN_INVALID_HANDLE)
           (OpUseByType "auth/munge") (munge_rack PLUGIN_INVALID_HANDLE 0)
           (munge_rack PLUGIN_INVALID_HANDLE 1) [EvLoad munge_path] eq_refl
           O (munge_entry PLUGIN_INVALID_HANDLE 0) eq_refl).
Defined.

(** X18: only the two setters touch the policy.  Discovery, requests,
    releases, sweeps and a refused destruction leave the major type, the
    authorized uid and the paranoia mask of the rack as they were. *)
Theorem policy_changed_by_setters_only (env : environment) (op : operation)
    (rack rack' : plugrack) (t : list event) :
  perform env op rack = Some (Some rack', t) ->
  (forall type, op <> OpSetMajorType type) ->
  (forall flags new_uid, op <> OpSetParanoia flags new_uid) ->
  major_type rack' = major_type rack
  /\ uid rack' = uid rack
  /\ paranoia rack' = paranoia rack.
Proof.
  intros H Hm Hp.
  exact (proj2 (perform_effect env op rack rack' t H) Hm Hp).
Qed.

Lemma policy_changed_by_setters_only_witness :
  major_type (set_entries rack_scan
                [mk_entry "auth/evil" "/opt/plugins/evil.so" PLUGIN_INVALID_HANDLE 0])
  = major_type rack_scan
  /\ uid (set_entries rack_scan
            [mk_entry "auth/evil" "/opt/plugins/evil.so" PLUGIN_INVALID_HANDLE 0])
     = uid rack_scan
  /\ paranoia (set_entries rack_scan
                 [mk_entry "auth/evil" "/opt/plugins/evil.so" PLUGIN_INVALID_HANDLE 0])
     = paranoia rack_scan.
Proof.
  apply (policy_changed_by_setters_only env_scan (OpReadDir "/opt/plugins") rack_scan
           _ [EvStat "/opt/plugins"; EvOpendir "/opt/plugins";
              EvStat "/opt/plugins/evil.so"; EvStat "/opt/plugins";
              EvPeek "/opt/plugins/evil.so"]).
  - reflexivity.
  - intros type. discriminate.
  - intros flags new_uid. discriminate.
Defined.

(** * The cli_filter driver *)

Section CliFilterFacts.

Variable D : Type.
Variable env : cli_filter_env D.

Lemma firstn_own_length (ctxs : list plugin_context_t) :
  firstn (Z.to_nat (Z.of_nat (List.length ctxs))) ctxs = ctxs.
Proof.
  rewrite Nat2Z.id. apply firstn_all.
Qed.

Lemma init_loop_all_created (names : list string) (cs : list plugin_context_t) :
  created env names cs ->
  forall ctxs,
    init_loop env names (Z.of_nat (List.length ctxs)) ctxs
    = (SLURM_SUCCESS, Z.of_nat (List.length (ctxs ++ cs)), ctxs ++ cs,
       map requested names).
Proof.
  induction 1 as [|n c names cs Hc _ IH]; intros ctxs; simpl.
  - rewrite app_nil_r. reflexivity.
  - rewrite Hc, firstn_own_length.
    replace (Z.of_nat (List.length ctxs) + 1)
      with (Z.of_nat (List.length (ctxs ++ [c])))
      by (rewrite length_app; simpl; lia).
    rewrite IH, <- app_assoc. reflexivity.
Qed.

Lemma init_loop_one_missing (n1 : list string) (bad : string) (n2 : list string)
    (cs : list plugin_context_t) :
  created env n1 cs ->
  plugin_context_create env "cli_filter" (cli_filter_type_name bad) = None ->
  forall ctxs,
    init_loop env (n1 ++ bad :: n2) (Z.of_nat (List.length ctxs)) ctxs
    = (SLURM_ERROR, Z.of_nat (List.length (ctxs ++ cs)), ctxs ++ cs,
       map requested (n1 ++ [bad])).
Proof.
  intros Hcs Hbad. induction Hcs as [|n c n1 cs Hc _ IH]; intros ctxs; simpl.
  - rewrite Hbad, firstn_own_length, app_nil_r. reflexivity.
  - rewrite Hc, firstn_own_length.
    replace (Z.of_nat (List.length ctxs) + 1)
      with (Z.of_nat (List.length (ctxs ++ [c])))
      by (rewrite length_app; simpl; lia).
    rewrite IH, <- app_assoc. reflexivity.
Qed.

Lemma fini_loop_destroys (ctxs : list plugin_context_t) :
  forall rc, snd (fini_loop env ctxs rc) = map CfDestroy ctxs.
Proof.
  induction ctxs as [|c ctxs IH]; intros rc; simpl; [reflexivity|].
  rewrite IH. reflexivity.
Qed.

Lemma fini_loop_status (ctxs : list plugin_context_t) :
  forall rc,
    (fst (fini_loop env ctxs rc) = rc
     /\ Forall (fun c => plugin_context_destroy env c = SLURM_SUCCESS) ctxs)
    \/ (exists c, In c ctxs
                  /\ plugin_context_destroy env c <> SLURM_SUCCESS
                  /\ fst (fini_loop env ctxs rc) = plugin_context_destroy env c).
Proof.
  induction ctxs as [|c ctxs IH]; intros rc; simpl; [left; auto|].
  destruct (Z.eqb_spec (plugin_context_destroy env c) SLURM_SUCCESS) as [E|E]; simpl.
  - destruct (IH rc) as [[H1 H2]|[c' [H1 [H2 H3]]]].
    + left. auto.
    + right. exists c'. auto.
  - destruct (IH (plugin_context_destroy env c)) as [[H1 H2]|[c' [H1 [H2 H3]]]].
    + right. exists c. auto.
    + right. exists c'. auto.
Qed.

Lemma init_loop_count (names : list string) :
  forall cnt ctxs, 0 <= cnt -> 0 <= snd (fst (fst (init_loop env names cnt ctxs))).
Proof.
  induction names as [|n names IH]; intros cnt ctxs Hc; simpl; [exact Hc|].
  destruct (plugin_context_create env "cli_filter" (cli_filter_type_name n));
    [|exact Hc].
  specialize (IH (cnt + 1) (firstn (Z.to_nat cnt) ctxs ++ [p]) ltac:(lia)).
  destruct (init_loop env names (cnt + 1) (firstn (Z.to_nat cnt) ctxs ++ [p]))
    as [[[rc cnt'] ctxs'] t]. exact IH.
Qed.

Lemma init_loop_status (names : list string) :
  forall cnt ctxs,
    fst (fst (fst (init_loop env names cnt ctxs))) = SLURM_SUCCESS
    \/ fst (fst (fst (init_loop env names cnt ctxs))) = SLURM_ERROR.
Proof.
  induction names as [|n names IH]; intros cnt ctxs; simpl; [left; reflexivity|].
  destruct (plugin_context_create env "cli_filter" (cli_filter_type_name n));
    [|right; reflexivity].
  specialize (IH (cnt + 1) (firstn (Z.to_nat cnt) ctxs ++ [p])).
  destruct (init_loop env names (cnt + 1) (firstn (Z.to_nat cnt) ctxs ++ [p]))
    as [[[rc cnt'] ctxs'] t]. exact IH.
Qed.

Lemma init_builds_chain_in_order_aux (st : cli_filter_state) (conf : string)
    (cs : list plugin_context_t) :
  g_context_cnt st < 0 ->
  g_context st = [] ->
  slurm_get_cli_filter_plugins env = Some conf ->
  conf <> "" ->
  created env (strtok_tokens "," conf "") cs ->
  cli_filter_plugin_init env st
  = (SLURM_SUCCESS,
     mk_cf_state (Z.of_nat (List.length cs)) cs
       (Some (strtok_clobbered "," conf)) true,
     CfGetPlugins :: map requested (strtok_tokens "," conf "")).
Proof.
  intros Hcnt Hnil Hget Hne Hcs. unfold cli_filter_plugin_init.
  assert (Hge : (g_context_cnt st >=? 0) = false).
  { destruct (Z.geb_spec (g_context_cnt st) 0); [lia|reflexivity]. }
  rewrite Hge, andb_false_r, Hget, Hnil.
  apply String.eqb_neq in Hne. rewrite Hne.
  pose proof (init_loop_all_created _ _ Hcs []) as Hloop. simpl in Hloop.
  rewrite Hloop. reflexivity.
Qed.

(** X19: a chain is built in the order of the configured names.  On a
    driver that holds no chain, with a configured list that is not empty
    and every context of its names created, cli_filter_plugin_init returns
    SLURM_SUCCESS after asking for one context per name, in the order of
    the list; the chain is these contexts in that order, the count is their
    number, and the list kept is what strtok_r left of the configured
    one. *)
Theorem init_builds_chain_in_order (st : cli_filter_state) (conf : string)
    (cs : list plugin_context_t) :
  g_context_cnt st < 0 ->
  g_context st = [] ->
  slurm_get_cli_filter_plugins env = Some conf ->
  conf <> "" ->
  created env (strtok_tokens "," conf "") cs ->
  cli_filter_plugin_init env st
  = (SLURM_SUCCESS,
     mk_cf_state (Z.of_nat (List.length cs)) cs
       (Some (strtok_clobbered "," conf)) true,
     CfGetPlugins :: map requested (strtok_tokens "," conf "")).
Proof.
  apply init_builds_chain_in_order_aux.
Qed.

(** X20: a chain that cannot be completed is taken down again.  When the
    context of one configured name cannot be created,
    cli_filter_plugin_init asks for no name behind it, destroys the
    contexts it created for the names before it, in order, returns
    SLURM_ERROR and leaves the driver as it was at the start, with no
    chain and no list. *)
Theorem init_failure_takes_chain_down (st : cli_filter_state) (conf : string)
    (n1 : list string) (bad : string) (n2 : list string)
    (cs : list plugin_context_t) :
  g_context_cnt st < 0 ->
  g_context st = [] ->
  slurm_get_cli_filter_plugins env = Some conf ->
  conf <> "" ->
  strtok_tokens "," conf "" = n1 ++ bad :: n2 ->
  created env n1 cs ->
  plugin_context_create env "cli_filter" (cli_filter_type_name bad) = None ->
  cli_filter_plugin_init env st
  = (SLURM_ERROR, cli_filter_start,
     CfGetPlugins :: map requested (n1 ++ [bad]) ++ map CfDestroy cs).
Proof.
  intros Hcnt Hnil Hget Hne Htok Hcs Hbad. unfold cli_filter_plugin_init.
  assert (Hge : (g_context_cnt st >=? 0) = false).
  { destruct (Z.geb_spec (g_context_cnt st) 0); [lia|reflexivity]. }
  rewrite Hge, andb_false_r, Hget, Hnil, Htok.
  apply String.eqb_neq in Hne. rewrite Hne.
  pose proof (init_loop_one_missing n1 bad n2 cs Hcs Hbad []) as Hloop.
  simpl in Hloop. rewrite Hloop. simpl.
  unfold cli_filter_plugin_fini. cbn [g_context_cnt g_context].
  assert (Hlt : (Z.of_nat (List.length cs) <? 0) = false).
  { apply Z.ltb_ge. lia. }
  rewrite Hlt, firstn_own_length. cbn [fst snd].
  rewrite fini_loop_destroys. reflexivity.
Qed.

Lemma init_of_chain_holder (st : cli_filter_state) :
  0 <= g_context_cnt st -> cli_filter_plugin_init env st = (SLURM_SUCCESS, st, []).
Proof.
  intros H. unfold cli_filter_plugin_init.
  assert (Hge : (g_context_cnt st >=? 0) = true).
  { destruct (Z.geb_spec (g_context_cnt st) 0); [reflexivity|lia]. }
  rewrite Hge. destruct (init_run st); reflexivity.
Qed.

(** X21: initialization is settled after one call.  Whatever state the
    driver is in, cli_filter_plugin_init either returns SLURM_SUCCESS, and
    then a further call returns SLURM_SUCCESS without asking the
    configuration or the plugin layer for anything and without changing
    the state; or it returns SLURM_ERROR and the driver is back in its
    start state, so that the next call starts over. *)
Theorem init_settles (st : cli_filter_state) :
  (fst (fst (cli_filter_plugin_init env st)) = SLURM_SUCCESS
   /\ cli_filter_plugin_init env (snd (fst (cli_filter_plugin_init env st)))
      = (SLURM_SUCCESS, snd (fst (cli_filter_plugin_init env st)), []))
  \/ (fst (fst (cli_filter_plugin_init env st)) = SLURM_ERROR
      /\ snd (fst (cli_filter_plugin_init env st)) = cli_filter_start).
Proof.
  destruct (Z_le_gt_dec 0 (g_context_cnt st)) as [Hge|Hlt].
  - left. rewrite (init_of_chain_holder st Hge). simpl.
    split; [reflexivity|]. apply init_of_chain_holder. exact Hge.
  - assert (Hgeb : (g_context_cnt st >=? 0) = false).
    { destruct (Z.geb_spec (g_context_cnt st) 0); [lia|reflexivity]. }
    destruct (cli_filter_plugin_init env st) as [[rc st1] t0] eqn:Hrun. simpl.
    unfold cli_filter_plugin_init in Hrun. rewrite Hgeb, andb_false_r in Hrun.
    destruct (slurm_get_cli_filter_plugins env) as [conf|].
    + destruct (conf =? "")%string.
      * inversion Hrun; subst. left. split; [reflexivity|].
        apply init_of_chain_holder. simpl. lia.
      * pose proof (init_loop_count (strtok_tokens "," conf "") 0 (g_context st)
                      ltac:(lia)) as Hcount.
        pose proof (init_loop_status (strtok_tokens "," conf "") 0 (g_context st))
          as Hstatus.
        destruct (init_loop env (strtok_tokens "," conf "") 0 (g_context st))
          as [[[rc0 cnt] ctxs] t]. simpl in Hcount, Hstatus.
        destruct Hstatus as [-> | ->]; simpl in Hrun; inversion Hrun; subst.
        -- left. split; [reflexivity|]. apply init_of_chain_holder. exact Hcount.
        -- right. split; [reflexivity|].
           unfold cli_filter_plugin_fini. cbn [g_context_cnt].
           assert (Hltb : (cnt <? 0) = false) by (apply Z.ltb_ge; lia).
           rewrite Hltb. reflexivity.
    + inversion Hrun; subst. left. split; [reflexivity|].
      apply init_of_chain_holder. simpl. lia.
Qed.

(** X22: cli_filter_plugin_fini takes the whole chain down.  On a driver
    without a chain it returns SLURM_SUCCESS and touches nothing.  On a
    driver that holds a chain it destroys every context once, in chain
    order, also behind one whose destruction failed, and leaves the
    driver in its start state; the status is SLURM_SUCCESS exactly when
    every destruction succeeded, and otherwise a status that a failed
    destruction returned. *)
Theorem fini_takes_chain_down (st : cli_filter_state) :
  (g_context_cnt st < 0 -> cli_filter_plugin_fini env st = (SLURM_SUCCESS, st, []))
  /\ (cf_initialized st ->
      exists rc,
        cli_filter_plugin_fini env st
        = (rc, cli_filter_start, map CfDestroy (g_context st))
        /\ (rc = SLURM_SUCCESS <->
            Forall (fun c => plugin_context_destroy env c = SLURM_SUCCESS)
              (g_context st))
        /\ (rc <> SLURM_SUCCESS ->
            exists c, In c (g_context st) /\ plugin_context_destroy env c = rc)).
Proof.
  unfold cli_filter_plugin_fini, cf_initialized. split.
  - intros H. apply Z.ltb_lt in H. rewrite H. reflexivity.
  - intros H. rewrite H.
    assert (Hlt : (Z.of_nat (List.length (g_context st)) <? 0) = false).
    { apply Z.ltb_ge. lia. }
    rewrite Hlt, firstn_own_length. eexists. split; [|split].
    + rewrite fini_loop_destroys. reflexivity.
    + destruct (fini_loop_status (g_context st) SLURM_SUCCESS)
        as [[H1 H2]|[c [H1 [H2 H3]]]].
      * tauto.
      * split; intros HH.
        -- rewrite H3 in HH. contradiction.
        -- rewrite Forall_forall in HH. exfalso. apply H2. apply HH. exact H1.
    + intros Hrc.
      destruct (fini_loop_status (g_context st) SLURM_SUCCESS)
        as [[H1 H2]|[c [H1 [H2 H3]]]].
      * contradiction.
      * exists c. split; [exact H1|]. symmetry. exact H3.
Qed.

Lemma pre_submit_loop_refused (ctxs : list plugin_context_t) (type rc : Z) (data : D) :
  rc <> SLURM_SUCCESS -> pre_submit_loop env ctxs type rc data = (rc, data, []).
Proof.
  intros H. apply Z.eqb_neq in H. destruct ctxs; simpl; [reflexivity|].
  rewrite H. reflexivity.
Qed.

Lemma pre_submit_loop_prefix (l1 : list plugin_context_t) (type : Z) :
  forall data d1 rest,
    pre_submit_all_accept env l1 type data d1 ->
    pre_submit_loop env (l1 ++ rest) type SLURM_SUCCESS data
    = (let r := pre_submit_loop env rest type SLURM_SUCCESS d1 in
       (fst (fst r), snd (fst r), map CfPreSubmit l1 ++ snd r)).
Proof.
  induction l1 as [|c l1 IH]; intros data d1 rest Hacc; simpl in *.
  - subst d1. destruct (pre_submit_loop env rest type SLURM_SUCCESS data)
      as [[rc d] t]. reflexivity.
  - destruct Hacc as [Hc Hrest]. rewrite Hc.
    rewrite (IH _ _ rest Hrest).
    destruct (pre_submit_loop env rest type SLURM_SUCCESS d1) as [[rc d] t].
    reflexivity.
Qed.

(** X23: the chain is run in order and stops at the first refusal.  On a
    driver that holds a chain, cli_filter_plugin_pre_submit leaves the
    driver as it is; when every plugin accepts in turn it calls all of
    them, each on the data the one before left, and returns
    SLURM_SUCCESS with the data of the last; when a plugin returns
    anything else, it calls none behind that one and returns that
    plugin's status and data. *)
Theorem pre_submit_stops_at_first_refusal (st : cli_filter_state) (type : Z)
    (data : D) :
  cf_initialized st ->
  (forall d',
     pre_submit_all_accept env (g_context st) type data d' ->
     cli_filter_plugin_pre_submit env st type data
     = (SLURM_SUCCESS, d', st, map CfPreSubmit (g_context st)))
  /\ (forall l1 c l2 d1,
        g_context st = l1 ++ c :: l2 ->
        pre_submit_all_accept env l1 type data d1 ->
        fst (ops_pre_submit env c type d1) <> SLURM_SUCCESS ->
        cli_filter_plugin_pre_submit env st type data
        = (fst (ops_pre_submit env c type d1), snd (ops_pre_submit env c type d1),
           st, map CfPreSubmit (l1 ++ [c]))).
Proof.
  unfold cf_initialized. intros Hinit.
  assert (Hge : 0 <= g_context_cnt st) by lia.
  unfold cli_filter_plugin_pre_submit.
  rewrite (init_of_chain_holder st Hge), Hinit, firstn_own_length.
  split.
  - intros d' Hacc.
    pose proof (pre_submit_loop_prefix (g_context st) type data d' [] Hacc) as H.
    rewrite app_nil_r in H. rewrite H. simpl. rewrite app_nil_r. reflexivity.
  - intros l1 c l2 d1 Hctx Hacc Hno. rewrite Hctx.
    rewrite (pre_submit_loop_prefix l1 type data d1 (c :: l2) Hacc). simpl.
    rewrite (pre_submit_loop_refused l2 type _ (snd (ops_pre_submit env c type d1)) Hno).
    simpl. rewrite map_app. reflexivity.
Qed.

(** X24: no plugin runs behind a failed initialization.  When
    cli_filter_plugin_init does not return SLURM_SUCCESS,
    cli_filter_plugin_pre_submit returns the status of the
    initialization, calls no plugin function and hands the data back as
    it got them. *)
Theorem pre_submit_after_failed_init (st : cli_filter_state) (type : Z) (data : D) :
  fst (fst (cli_filter_plugin_init env st)) <> SLURM_SUCCESS ->
  cli_filter_plugin_pre_submit env st type data
  = (fst (fst (cli_filter_plugin_init env st)), data,
     snd (fst (cli_filter_plugin_init env st)),
     snd (cli_filter_plugin_init env st)).
Proof.
  intros H. unfold cli_filter_plugin_pre_submit.
  destruct (cli_filter_plugin_init env st) as [[rc st1] t]. simpl in *.
  rewrite (pre_submit_loop_refused _ type rc data H). rewrite app_nil_r.
  reflexivity.
Qed.

Lemma post_submit_loop_refused (ctxs : list plugin_context_t) (type jobid rc : Z)
    (data : D) :
  rc <> SLURM_SUCCESS ->
  post_submit_loop env ctxs type jobid rc data = (rc, data, []).
Proof.
  intros H. apply Z.eqb_neq in H. destruct ctxs; simpl; [reflexivity|].
  rewrite H. reflexivity.
Qed.

Lemma post_submit_loop_prefix (l1 : list plugin_context_t) (type jobid : Z) :
  forall data d1 rest,
    post_submit_all_accept env l1 type jobid data d1 ->
    post_submit_loop env (l1 ++ rest) type jobid SLURM_SUCCESS data
    = (let r := post_submit_loop env rest type jobid SLURM_SUCCESS d1 in
       (fst (fst r), snd (fst r), map CfPostSubmit l1 ++ snd r)).
Proof.
  induction l1 as [|c l1 IH]; intros data d1 rest Hacc; simpl in *.
  - subst d1. destruct (post_submit_loop env rest type jobid SLURM_SUCCESS data)
      as [[rc d] t]. reflexivity.
  - destruct Hacc as [Hc Hrest]. rewrite Hc.
    rewrite (IH _ _ rest Hrest).
    destruct (post_submit_loop env rest type jobid SLURM_SUCCESS d1) as [[rc d] t].
    reflexivity.
Qed.

(** X25: cli_filter_plugin_post_submit runs the chain the same way.  On
    a driver that holds a chain it leaves the driver as it is; when every
    plugin's post_submit accepts in turn it calls all of them in chain
    order and returns SLURM_SUCCESS; when one returns anything else, it
    calls none behind that one and returns that status.  When the
    initialization fails, it calls no plugin and returns the status of
    the initialization. *)
Theorem post_submit_stops_at_first_refusal (st : cli_filter_state)
    (type jobid : Z) (data : D) :
  (cf_initialized st ->
   (forall d',
      post_submit_all_accept env (g_context st) type jobid data d' ->
      cli_filter_plugin_post_submit env st type jobid data
      = (SLURM_SUCCESS, d', st, map CfPostSubmit (g_context st)))
   /\ (forall l1 c l2 d1,
         g_context st = l1 ++ c :: l2 ->
         post_submit_all_accept env l1 type jobid data d1 ->
         fst (ops_post_submit env c type jobid d1) <> SLURM_SUCCESS ->
         cli_filter_plugin_post_submit env st type jobid data
         = (fst (ops_post_submit env c type jobid d1),
            snd (ops_post_submit env c type jobid d1),
            st, map CfPostSubmit (l1 ++ [c]))))
  /\ (fst (fst (cli_filter_plugin_init env st)) <> SLURM_SUCCESS ->
      cli_filter_plugin_post_submit env st type jobid data
      = (fst (fst (cli_filter_plugin_init env st)), data,
         snd (fst (cli_filter_plugin_init env st)),
         snd (cli_filter_plugin_init env st))).
Proof.
  split.
  - unfold cf_initialized. intros Hinit.
    assert (Hge : 0 <= g_context_cnt st) by lia.
    unfold cli_filter_plugin_post_submit.
    rewrite (init_of_chain_holder st Hge), Hinit, firstn_own_length.
    split.
    + intros d' Hacc.
      pose proof (post_submit_loop_prefix (g_context st) type jobid data d' [] Hacc)
        as H.
      rewrite app_nil_r in H. rewrite H. simpl. rewrite app_nil_r. reflexivity.
    + intros l1 c l2 d1 Hctx Hacc Hno. rewrite Hctx.
      rewrite (post_submit_loop_prefix l1 type jobid data d1 (c :: l2) Hacc). simpl.
      rewrite (post_submit_loop_refused l2 type jobid _
                 (snd (ops_post_submit env c type jobid d1)) Hno).
      simpl. rewrite map_app. reflexivity.
  - intros H. unfold cli_filter_plugin_post_submit.
    destruct (cli_filter_plugin_init env st) as [[rc st1] t]. simpl in *.
    rewrite (post_submit_loop_refused _ type jobid rc data H). rewrite app_nil_r.
    reflexivity.
Qed.

(** X26: cli_filter_plugin_reconfig looks for a change only between two
    lists.  When the driver keeps no list, as at the start and after an
    initialization without configuration, or when the configuration gives
    none, it returns SLURM_SUCCESS and leaves the driver as it is: names
    configured later are not picked up, and a chain whose configuration
    went away stays. *)
Theorem reconfig_without_a_list (st : cli_filter_state) :
  clifilter_plugin_list st = None \/ slurm_get_cli_filter_plugins env = None ->
  cli_filter_plugin_reconfig env st = (SLURM_SUCCESS, st, [CfGetPlugins]).
Proof.
  unfold cli_filter_plugin_reconfig. intros [H|H]; rewrite H.
  - destruct (slurm_get_cli_filter_plugins env); reflexivity.
  - reflexivity.
Qed.

(** X27: a list of several names is rebuilt on every reconfiguration.
    After an initialization that built a chain from the configured list,
    the list the driver keeps is what strtok_r left of it; when that is
    no longer equal to the configured list, as for every list that names
    two plugins, cli_filter_plugin_reconfig under the unchanged
    configuration destroys the whole chain and builds it again, and ends
    in the state it started from. *)
Theorem reconfig_rebuilds_unchanged_list (st : cli_filter_state) (conf : string)
    (cs : list plugin_context_t) :
  g_context_cnt st < 0 ->
  g_context st = [] ->
  slurm_get_cli_filter_plugins env = Some conf ->
  conf <> "" ->
  created env (strtok_tokens "," conf "") cs ->
  Forall (fun c => plugin_context_destroy env c = SLURM_SUCCESS) cs ->
  strcmp conf (strtok_clobbered "," conf) <> 0 ->
  exists st1 t,
    cli_filter_plugin_init env st = (SLURM_SUCCESS, st1, t)
    /\ cli_filter_plugin_reconfig env st1
       = (SLURM_SUCCESS, st1,
          CfGetPlugins :: map CfDestroy cs
          ++ CfGetPlugins :: map requested (strtok_tokens "," conf "")).
Proof.
  intros Hcnt Hnil Hget Hne Hcs Hdes Hcmp.
  do 2 eexists. split.
  - apply (init_builds_chain_in_order_aux st conf cs); assumption.
  - unfold cli_filter_plugin_reconfig. cbn [clifilter_plugin_list].
    rewrite Hget. apply Z.eqb_neq in Hcmp. rewrite Hcmp. cbn [negb].
    assert (Hfini : cli_filter_plugin_fini env
                      (mk_cf_state (Z.of_nat (List.length cs)) cs
                         (Some (strtok_clobbered "," conf)) true)
                    = (SLURM_SUCCESS, cli_filter_start, map CfDestroy cs)).
    { unfold cli_filter_plugin_fini. cbn [g_context_cnt g_context].
      assert (Hlt : (Z.of_nat (List.length cs) <? 0) = false).
      { apply Z.ltb_ge. lia. }
      rewrite Hlt, firstn_own_length, fini_loop_destroys.
      destruct (fini_loop_status cs SLURM_SUCCESS) as [[H1 _]|[c [H1 [H2 _]]]].
      - rewrite H1. reflexivity.
      - rewrite Forall_forall in Hdes. exfalso. apply H2. apply Hdes. exact H1. }
    rewrite Hfini. cbn [fst snd]. rewrite Z.eqb_refl.
    rewrite (init_builds_chain_in_order_aux cli_filter_start conf cs);
      [reflexivity| reflexivity | reflexivity | assumption | assumption | assumption].
Qed.

End CliFilterFacts.

Ltac created_by_computation :=
  unfold created;
  match goal with
  | |- Forall2 _ ?names _ =>
      let names' := eval vm_compute in names in change names with names'
  end;
  repeat first [ apply Forall2_nil
               | apply Forall2_cons; [vm_compute; reflexivity|] ].

Lemma init_builds_chain_in_order_witness :
  cli_filter_plugin_init cf_env_two cli_filter_start
  = (SLURM_SUCCESS,
     mk_cf_state (Z.of_nat (List.length [1; 2])) [1; 2]
       (Some (strtok_clobbered "," "lua,cli_filter/syslog")) true,
     CfGetPlugins :: map requested (strtok_tokens "," "lua,cli_filter/syslog" "")).
Proof.
  apply (init_builds_chain_in_order nat cf_env_two cli_filter_start
           "lua,cli_filter/syslog" [1; 2]).
  - vm_compute. reflexivity.
  - reflexivity.
  - reflexivity.
  - discriminate.
  - created_by_computation.
Defined.

Lemma init_failure_takes_chain_down_witness :
  cli_filter_plugin_init cf_env_missing cli_filter_start
  = (SLURM_ERROR, cli_filter_start,
     CfGetPlugins :: map requested (["lua"] ++ ["nothere"]) ++ map CfDestroy [1]).
Proof.
  apply (init_failure_takes_chain_down nat cf_env_missing cli_filter_start
           "lua,nothere,syslog" ["lua"] "nothere" ["syslog"] [1]).
  - vm_compute. reflexivity.
  - reflexivity.
  - reflexivity.
  - discriminate.
  - vm_compute. reflexivity.
  - created_by_computation.
  - vm_compute. reflexivity.
Defined.

Lemma fini_takes_chain_down_witness :
  exists rc,
    cli_filter_plugin_fini cf_env_two cf_state_two
    = (rc, cli_filter_start, map CfDestroy (g_context cf_state_two))
    /\ (rc = SLURM_SUCCESS <->
        Forall (fun c => plugin_context_destroy cf_env_two c = SLURM_SUCCESS)
          (g_context cf_state_two))
    /\ (rc <> SLURM_SUCCESS ->
        exists c, In c (g_context cf_state_two)
                  /\ plugin_context_destroy cf_env_two c = rc).
Proof.
  apply (proj2 (fini_takes_chain_down nat cf_env_two cf_state_two)).
  vm_compute. reflexivity.
Defined.

Lemma pre_submit_stops_at_first_refusal_witness :
  cli_filter_plugin_pre_submit cf_env_two cf_state_two 2 O
  = (fst (ops_pre_submit cf_env_two 2 2 1%nat),
     snd (ops_pre_submit cf_env_two 2 2 1%nat),
     cf_state_two, map CfPreSubmit ([1] ++ [2])).
Proof.
  assert (Hinit : cf_initialized cf_state_two) by (vm_compute; reflexivity).
  apply (proj2 (pre_submit_stops_at_first_refusal nat cf_env_two cf_state_two 2 O
                  Hinit) [1] 2 [] 1%nat).
  - reflexivity.
  - vm_compute. split; reflexivity.
  - vm_compute. discriminate.
Defined.

Lemma pre_submit_after_failed_init_witness :
  cli_filter_plugin_pre_submit cf_env_missing cli_filter_start 2 O
  = (fst (fst (cli_filter_plugin_init cf_env_missing cli_filter_start)), O,
     snd (fst (cli_filter_plugin_init cf_env_missing cli_filter_start)),
     snd (cli_filter_plugin_init cf_env_missing cli_filter_start)).
Proof.
  apply (pre_submit_after_failed_init nat cf_env_missing cli_filter_start 2 O).
  vm_compute. discriminate.
Defined.

Lemma reconfig_without_a_list_witness :
  cli_filter_plugin_reconfig cf_env_two cli_filter_start
  = (SLURM_SUCCESS, cli_filter_start, [CfGetPlugins]).
Proof.
  apply (reconfig_without_a_list nat cf_env_two cli_filter_start).
  left. reflexivity.
Defined.

Lemma reconfig_rebuilds_unchanged_list_witness :
  exists st1 t,
    cli_filter_plugin_init cf_env_two cli_filter_start = (SLURM_SUCCESS, st1, t)
    /\ cli_filter_plugin_reconfig cf_env_two st1
       = (SLURM_SUCCESS, st1,
          CfGetPlugins :: map CfDestroy [1; 2]
          ++ CfGetPlugins
             :: map requested (strtok_tokens "," "lua,cli_filter/syslog" "")).
Proof.
  apply (reconfig_rebuilds_unchanged_list nat cf_env_two cli_filter_start
           "lua,cli_filter/syslog" [1; 2]).
  - vm_compute. reflexivity.
  - reflexivity.
  - reflexivity.
  - discriminate.
  - created_by_computation.
  - vm_compute. repeat constructor.
  - vm_compute. discriminate.
Defined.

Lemma post_submit_stops_at_first_refusal_witness :
  cli_filter_plugin_post_submit cf_env_two cf_state_two 2 77 O
  = (fst (ops_post_submit cf_env_two 1 2 77 O),
     snd (ops_post_submit cf_env_two 1 2 77 O),
     cf_state_two, map CfPostSubmit ([] ++ [1])).
Proof.
  assert (Hinit : cf_initialized cf_state_two) by (vm_compute; reflexivity).
  apply (proj2 (proj1 (post_submit_stops_at_first_refusal nat cf_env_two cf_state_two
                         2 77 O) Hinit) [] 1 [2] O).
  - reflexivity.
  - reflexivity.
  - vm_compute. discriminate.
Defined.

(** ** Names of filter plugins *)

Lemma strncmp_zero_sym (n : nat) :
  forall a b, (strncmp a b n =? 0) = (strncmp b a n =? 0).
Proof.
  induction n as [|n IH]; intros a b; simpl; [reflexivity|].
  rewrite (Z.eqb_sym (head_char b) (head_char a)).
  destruct (Z.eqb_spec (head_char a) (head_char b)) as [E|E]; simpl.
  - rewrite E. destruct (head_char b =? 0); [reflexivity|]. apply IH.
  - transitivity false; [|symmetry]; apply Z.eqb_neq; lia.
Qed.

Lemma substring_whole (s : string) : substring 0 (String.length s) s = s.
Proof.
  induction s as [|a s IH]; simpl; [reflexivity|]. rewrite IH. reflexivity.
Qed.

(** X28: both spellings of a plugin name ask for the same type.  A name
    given with the prefix cli_filter/ loses that prefix once and gets it
    back, so cli_filter/x asks for cli_filter/x; a name that does not
    begin with cli_filter/ gets the prefix, so x asks for cli_filter/x
    too. *)
Theorem type_name_of_both_spellings (name : string) :
  cli_filter_type_name ("cli_filter/" ++ name) = ("cli_filter/" ++ name)%string
  /\ (String.prefix "cli_filter/" name = false ->
      cli_filter_type_name name = ("cli_filter/" ++ name)%string).
Proof.
  unfold cli_filter_type_name. split.
  - assert (H : strncmp ("cli_filter/" ++ name) "cli_filter/" 11 = 0)
      by reflexivity.
    rewrite H. cbn [Z.eqb]. f_equal.
    unfold skip_chars. cbn [String.append String.length Nat.sub substring].
    rewrite Nat.sub_0_r. apply substring_whole.
  - intros Hpre.
    assert (H : (strncmp name "cli_filter/" 11 =? 0) = false).
    { rewrite strncmp_zero_sym.
      change 11%nat with (String.length "cli_filter/").
      rewrite strncmp_is_prefix; [exact Hpre|].
      simpl. repeat split; discriminate. }
    rewrite H. reflexivity.
Qed.

Lemma type_name_of_both_spellings_witness :
  cli_filter_type_name ("cli_filter/" ++ "lua") = "cli_filter/lua"
  /\ cli_filter_type_name "lua" = "cli_filter/lua".
Proof.
  destruct (type_name_of_both_spellings "lua") as [H1 H2].
  split; [exact H1|exact (H2 eq_refl)].
Defined.
